(** * agentic_system.py: a think / act / observe agent loop

    A shallow embedding of [src/agentic_system.py] and the properties of its
    specification.

    Conventions of the embedding.
    - A Python [str] is a [string] holding its UTF-8 bytes.  Every string
      operation the program performs (equality, concatenation, membership of a
      character in an ASCII set, search for an ASCII substring) reads the same
      on the bytes as on the code points.
    - A Python exception is a value [exn]: its class and the text [str(e)].
      The class hierarchy is the one of the language ([issubclass]).
    - Code that may raise returns a [result]; code that also mutates the
      agent (its memory) or prints runs in the monad [M].
    - The interpreter is idealised: no recursion limit, no limit on the size
      of integers or on their conversion to text, no memory exhaustion. *)

From Stdlib Require Import ZArith String Ascii List Lia Bool.
From Stdlib Require Import DecimalString DecimalFacts DecimalPos DecimalN.
From stdpp Require Import gmap strings.

Open Scope string_scope.
Open Scope list_scope.

(** * Python values shared by all classes *)

Module Py.

(** ** Exceptions *)

Inductive exn_class :=
| BaseException | SystemExit | KeyboardInterrupt | GeneratorExit
| Exception
| ArithmeticError | ZeroDivisionError | OverflowError
| AttributeError
| LookupError | IndexError | KeyError
| SyntaxError | TypeError
| ValueError | JSONDecodeError.

Definition exn_class_eqb (a b : exn_class) : bool :=
  match a, b with
  | BaseException, BaseException | SystemExit, SystemExit
  | KeyboardInterrupt, KeyboardInterrupt | GeneratorExit, GeneratorExit
  | Exception, Exception | ArithmeticError, ArithmeticError
  | ZeroDivisionError, ZeroDivisionError | OverflowError, OverflowError
  | AttributeError, AttributeError | LookupError, LookupError
  | IndexError, IndexError | KeyError, KeyError
  | SyntaxError, SyntaxError | TypeError, TypeError
  | ValueError, ValueError | JSONDecodeError, JSONDecodeError => true
  | _, _ => false
  end.

(** The base class of each class ([json.JSONDecodeError] derives from
    [ValueError]). *)
Definition base (c : exn_class) : option exn_class :=
  match c with
  | BaseException => None
  | SystemExit | KeyboardInterrupt | GeneratorExit | Exception =>
      Some BaseException
  | ArithmeticError | AttributeError | LookupError | SyntaxError
  | TypeError | ValueError => Some Exception
  | ZeroDivisionError | OverflowError => Some ArithmeticError
  | IndexError | KeyError => Some LookupError
  | JSONDecodeError => Some ValueError
  end.

Fixpoint issubclass_upto (depth : nat) (c parent : exn_class) : bool :=
  exn_class_eqb c parent ||
  match depth with
  | O => false
  | S d => match base c with
           | Some b => issubclass_upto d b parent
           | None => false
           end
  end.

(** The hierarchy above has depth 4. *)
Definition issubclass : exn_class -> exn_class -> bool := issubclass_upto 4.

Record exn := mk_exn { exn_cls : exn_class; exn_str : string }.

Inductive result (A : Type) :=
| Ok (a : A)
| Raise (e : exn).
Arguments Ok {A} a.
Arguments Raise {A} e.

Definition rbind {A B} (r : result A) (k : A -> result B) : result B :=
  match r with
  | Ok a => k a
  | Raise e => Raise e
  end.

(** [try: body except cls as e: handler(e)] *)
Definition try_except {A} (body : result A) (cls : exn_class)
    (handler : exn -> result A) : result A :=
  match body with
  | Ok a => Ok a
  | Raise e => if issubclass (exn_cls e) cls then handler e else Raise e
  end.

(** ** Strings *)

Definition quote : string := String (ascii_of_nat 34) EmptyString.

Definition in_range (lo hi : nat) (c : ascii) : bool :=
  (lo <=? nat_of_ascii c)%nat && (nat_of_ascii c <=? hi)%nat.

Definition is_digit (c : ascii) : bool := in_range 48 57 c.

(** [str.lower()].  On the ASCII letters it adds 32 to the code.  The lower
    case of a character outside ASCII is never one of the letters of
    ["calculate"] (the only non-ASCII characters whose lower case contains
    an ASCII letter are U+212A, to [k], and U+0130, to [i] and U+0307), and
    the only use of [lower] in the program is the search for that word, so
    the bytes of such characters are left as they are. *)
Definition lower_char (c : ascii) : ascii :=
  if in_range 65 90 c then ascii_of_nat (nat_of_ascii c + 32) else c.

Fixpoint lower (s : string) : string :=
  match s with
  | EmptyString => EmptyString
  | String c s' => String (lower_char c) (lower s')
  end.

Fixpoint startswith (s prefix : string) : bool :=
  match prefix, s with
  | EmptyString, _ => true
  | String p prefix', String c s' => Ascii.eqb p c && startswith s' prefix'
  | String _ _, EmptyString => false
  end.

(** [sub in s] for two strings. *)
Fixpoint contains (s sub : string) : bool :=
  startswith s sub ||
  match s with
  | EmptyString => false
  | String _ s' => contains s' sub
  end.

(** [c in set(chars)] for a one-character string [c]. *)
Fixpoint char_in (c : ascii) (chars : string) : bool :=
  match chars with
  | EmptyString => false
  | String d chars' => Ascii.eqb c d || char_in c chars'
  end.

(** [all(p(c) for c in s)] over the characters of a string. *)
Fixpoint all_chars (p : ascii -> bool) (s : string) : bool :=
  match s with
  | EmptyString => true
  | String c s' => p c && all_chars p s'
  end.

(** [int(digits)] for a string of decimal digits. *)
Definition int_of_digits (digits : string) : N :=
  match NilEmpty.uint_of_string digits with
  | Some u => N.of_uint u
  | None => 0%N
  end.

(** [str(n)] for an [int]. *)
Definition str_int (z : Z) : string := NilZero.string_of_int (Z.to_int z).

End Py.
Export Py.

(** * The [json] module *)

Module Json.

(** The values [json.loads] builds and [json.dumps] accepts: [None],
    [bool], [int], [float], [str], [list] and [dict] with [str] keys.  A
    [dict] is its items in insertion order, the keys all different.  The
    program never computes with a [float], which is kept as the text that
    denotes it. *)
#[warnings="-register-all"]
Inductive value :=
| JNull
| JBool (b : bool)
| JInt (z : Z)
| JFloat (lexeme : string)
| JStr (s : string)
| JList (items : list value)
| JDict (items : list (string * value)).

Abbreviation dict := (list (string * value)).

(** [d.get(key)], [None] ([JNull]) by default. *)
Fixpoint lookup (key : string) (d : dict) : option value :=
  match d with
  | [] => None
  | (k, v) :: d' => if String.eqb k key then Some v else lookup key d'
  end.

Definition get (d : dict) (key : string) (default : value) : value :=
  match lookup key d with
  | Some v => v
  | None => default
  end.

(** [d[key] = v]: a key that is present keeps its place. *)
Fixpoint set (key : string) (v : value) (d : dict) : dict :=
  match d with
  | [] => [(key, v)]
  | (k, w) :: d' =>
      if String.eqb k key then (k, v) :: d' else (k, w) :: set key v d'
  end.


(** ** [json.dumps] (default options: [ensure_ascii], separators [", "]
    and [": "]) *)

Definition hex_digit (n : N) : ascii :=
  ascii_of_N (if (n <? 10)%N then 48 + n else 87 + n).

Definition hex4 (n : N) : string :=
  String (hex_digit (N.land (N.shiftr n 12) 15))
    (String (hex_digit (N.land (N.shiftr n 8) 15))
       (String (hex_digit (N.land (N.shiftr n 4) 15))
          (String (hex_digit (N.land n 15)) EmptyString))).

(** The escape of one code point: [\uXXXX], a surrogate pair above the
    basic plane. *)
Definition escape_code_point (n : N) : string :=
  if (n <? 65536)%N then "\u" +:+ hex4 n
  else
    let v := (n - 65536)%N in
    "\u" +:+ hex4 (55296 + N.shiftr v 10) +:+
    "\u" +:+ hex4 (56320 + N.land v 1023).

Definition cont (c : ascii) : N := N.land (N_of_ascii c) 63.

(** [py_encode_basestring_ascii] without the enclosing quotes, reading the
    code points off the UTF-8 bytes. *)
Fixpoint escape_ascii (s : string) : string :=
  match s with
  | EmptyString => EmptyString
  | String c s' =>
      let n := N_of_ascii c in
      if (n =? 34)%N then "\" +:+ quote +:+ escape_ascii s'
      else if (n =? 92)%N then "\\" +:+ escape_ascii s'
      else if (n =? 10)%N then "\n" +:+ escape_ascii s'
      else if (n =? 13)%N then "\r" +:+ escape_ascii s'
      else if (n =? 9)%N then "\t" +:+ escape_ascii s'
      else if (n =? 8)%N then "\b" +:+ escape_ascii s'
      else if (n =? 12)%N then "\f" +:+ escape_ascii s'
      else if (32 <=? n)%N && (n <=? 126)%N then String c (escape_ascii s')
      else if (n <? 192)%N then escape_code_point n +:+ escape_ascii s'
      else if (n <? 224)%N then
        match s' with
        | String c1 s1 =>
            escape_code_point (N.shiftl (N.land n 31) 6 + cont c1)
            +:+ escape_ascii s1
        | _ => escape_code_point n
        end
      else if (n <? 240)%N then
        match s' with
        | String c1 (String c2 s2) =>
            escape_code_point
              (N.shiftl (N.land n 15) 12 + N.shiftl (cont c1) 6 + cont c2)
            +:+ escape_ascii s2
        | _ => escape_code_point n
        end
      else
        match s' with
        | String c1 (String c2 (String c3 s3)) =>
            escape_code_point
              (N.shiftl (N.land n 7) 18 + N.shiftl (cont c1) 12
               + N.shiftl (cont c2) 6 + cont c3)
            +:+ escape_ascii s3
        | _ => escape_code_point n
        end
  end.

Definition dumps_str (s : string) : string :=
  quote +:+ escape_ascii s +:+ quote.

Fixpoint join (sep : string) (l : list string) : string :=
  match l with
  | [] => EmptyString
  | [x] => x
  | x :: l' => x +:+ sep +:+ join sep l'
  end.

Fixpoint dumps (v : value) : string :=
  match v with
  | JNull => "null"
  | JBool true => "true"
  | JBool false => "false"
  | JInt z => str_int z
  | JFloat lexeme => lexeme
  | JStr s => dumps_str s
  | JList items =>
      "[" +:+ join ", " (List.map dumps items) +:+ "]"
  | JDict items =>
      "{" +:+
      join ", "
        (List.map (fun kv => dumps_str (fst kv) +:+ ": " +:+ dumps (snd kv))
           items)
      +:+ "}"
  end.

(** ** [json.loads] (default options: [strict], no hooks)

    The decoder of [json.decoder] and [json.scanner]: every failure it
    reports is a [JSONDecodeError]. *)

Definition dquote : ascii := ascii_of_nat 34.
Definition backslash : ascii := ascii_of_nat 92.

(** [WHITESPACE]: space, tab, line feed and carriage return. *)
Definition is_ws (c : ascii) : bool :=
  let n := N_of_ascii c in
  (n =? 32)%N || (n =? 9)%N || (n =? 10)%N || (n =? 13)%N.

Fixpoint skip_ws (s : string) : string :=
  match s with
  | String c s' => if is_ws c then skip_ws s' else s
  | EmptyString => s
  end.

Definition hex_value (c : ascii) : option N :=
  let n := N_of_ascii c in
  if (48 <=? n)%N && (n <=? 57)%N then Some (n - 48)%N
  else if (97 <=? n)%N && (n <=? 102)%N then Some (n - 87)%N
  else if (65 <=? n)%N && (n <=? 70)%N then Some (n - 55)%N
  else None.

Definition hex4_value (a b c d : ascii) : option N :=
  match hex_value a, hex_value b, hex_value c, hex_value d with
  | Some x, Some y, Some z, Some w => Some (4096 * x + 256 * y + 16 * z + w)%N
  | _, _, _, _ => None
  end.

Definition byte (n : N) : string := String (ascii_of_N n) EmptyString.

(** [chr(n)] as UTF-8 bytes; a lone surrogate takes three bytes as any
    other code point of the basic plane. *)
Definition chr (n : N) : string :=
  if (n <? 128)%N then byte n
  else if (n <? 2048)%N then
    byte (192 + N.shiftr n 6) +:+ byte (128 + N.land n 63)
  else if (n <? 65536)%N then
    byte (224 + N.shiftr n 12) +:+ byte (128 + N.land (N.shiftr n 6) 63)
    +:+ byte (128 + N.land n 63)
  else
    byte (240 + N.shiftr n 18) +:+ byte (128 + N.land (N.shiftr n 12) 63)
    +:+ byte (128 + N.land (N.shiftr n 6) 63) +:+ byte (128 + N.land n 63).

(** The table [BACKSLASH] of one-character escapes. *)
Definition simple_escape (e : ascii) : option string :=
  let n := N_of_ascii e in
  if (n =? 34)%N then Some quote
  else if (n =? 92)%N then Some "\"
  else if (n =? 47)%N then Some "/"
  else if (n =? 98)%N then Some (byte 8)
  else if (n =? 102)%N then Some (byte 12)
  else if (n =? 110)%N then Some (byte 10)
  else if (n =? 114)%N then Some (byte 13)
  else if (n =? 116)%N then Some (byte 9)
  else None.

Definition prepend (chunk : string) (r : option (string * string))
  : option (string * string) :=
  match r with
  | Some (str, rest) => Some (chunk +:+ str, rest)
  | None => None
  end.

(** [scanstring], entered after the opening quote: the decoded string and
    the text after the closing quote. *)
Fixpoint scanstring (s : string) : option (string * string) :=
  match s with
  | EmptyString => None
  | String c s' =>
      let n := N_of_ascii c in
      if (n =? 34)%N then Some (EmptyString, s')
      else if (n <? 32)%N then None
      else if (n =? 92)%N then
        match s' with
        | EmptyString => None
        | String e s'' =>
            match simple_escape e with
            | Some chunk => prepend chunk (scanstring s'')
            | None =>
                if negb (Ascii.eqb e "u") then None
                else
                  match s'' with
                  | String h1 (String h2 (String h3 (String h4 s4))) =>
                      match hex4_value h1 h2 h3 h4 with
                      | None => None
                      | Some uni =>
                          if (55296 <=? uni)%N && (uni <=? 56319)%N then
                            match s4 with
                            | String b (String u s6) =>
                                if Ascii.eqb b backslash && Ascii.eqb u "u"
                                then
                                  match s6 with
                                  | String l1 (String l2 (String l3
                                      (String l4 s10))) =>
                                      match hex4_value l1 l2 l3 l4 with
                                      | None => None
                                      | Some uni2 =>
                                          if (56320 <=? uni2)%N
                                             && (uni2 <=? 57343)%N
                                          then
                                            prepend
                                              (chr (65536 +
                                                    N.lor
                                                      (N.shiftl (uni - 55296) 10)
                                                      (uni2 - 56320)))
                                              (scanstring s10)
                                          else prepend (chr uni) (scanstring s4)
                                      end
                                  | _ => None
                                  end
                                else prepend (chr uni) (scanstring s4)
                            | _ => prepend (chr uni) (scanstring s4)
                            end
                          else prepend (chr uni) (scanstring s4)
                      end
                  | _ => None
                  end
            end
        end
      else prepend (String c EmptyString) (scanstring s')
  end.

(** The text after the character [c] when [s] starts with it. *)
Definition eat (c : ascii) (s : string) : option string :=
  match s with
  | String c' s' => if Ascii.eqb c' c then Some s' else None
  | EmptyString => None
  end.

Fixpoint span_digits (s : string) : string * string :=
  match s with
  | String c s' =>
      if is_digit c then
        let (ds, rest) := span_digits s' in (String c ds, rest)
      else (EmptyString, s)
  | EmptyString => (EmptyString, s)
  end.

(** [NUMBER_RE] matched at the start of [s]: an optional minus sign, then
    a zero or a digit from 1 to 9 followed by digits; an optional fraction
    (a dot and at least one digit); an optional exponent (e or E, an
    optional sign, at least one digit).  The value is an [int] when
    fraction and exponent are both absent. *)
Definition scan_number (s : string) : option (value * string) :=
  let (sign, s1) :=
    match eat "-" s with
    | Some s' => ("-", s')
    | None => (EmptyString, s)
    end in
  match s1 with
  | String c s2 =>
      if is_digit c then
        let (int_part, s3) :=
          if Ascii.eqb c "0" then ("0", s2)
          else let (ds, rest) := span_digits s2 in (String c ds, rest) in
        let (frac, s4) :=
          match eat "." s3 with
          | Some t =>
              let (ds, rest) := span_digits t in
              match ds with
              | EmptyString => (EmptyString, s3)
              | _ => ("." +:+ ds, rest)
              end
          | None => (EmptyString, s3)
          end in
        let (exp, s5) :=
          match s4 with
          | String e t =>
              if Ascii.eqb e "e" || Ascii.eqb e "E" then
                let (esign, t') :=
                  match eat "+" t, eat "-" t with
                  | Some u, _ => ("+", u)
                  | None, Some u => ("-", u)
                  | None, None => (EmptyString, t)
                  end in
                let (ds, rest) := span_digits t' in
                match ds with
                | EmptyString => (EmptyString, s4)
                | _ => (String e esign +:+ ds, rest)
                end
              else (EmptyString, s4)
          | EmptyString => (EmptyString, s4)
          end in
        match frac, exp with
        | EmptyString, EmptyString =>
            let n := Z.of_N (int_of_digits int_part) in
            Some (JInt (if String.eqb sign "-" then - n else n)%Z, s5)
        | _, _ => Some (JFloat (sign +:+ int_part +:+ frac +:+ exp), s5)
        end
      else None
  | EmptyString => None
  end.

Fixpoint drop_prefix (prefix s : string) : option string :=
  match prefix, s with
  | EmptyString, _ => Some s
  | String p prefix', String c s' =>
      if Ascii.eqb p c then drop_prefix prefix' s' else None
  | String _ _, EmptyString => None
  end.

(** The literals [null], [true], [false], then a number, then the constants
    [NaN], [Infinity] and [-Infinity], in the order the scanner tries. *)
Definition scan_atom (s : string) : option (value * string) :=
  match drop_prefix "null" s with
  | Some r => Some (JNull, r)
  | None =>
  match drop_prefix "true" s with
  | Some r => Some (JBool true, r)
  | None =>
  match drop_prefix "false" s with
  | Some r => Some (JBool false, r)
  | None =>
  match scan_number s with
  | Some r => Some r
  | None =>
  match drop_prefix "NaN" s with
  | Some r => Some (JFloat "NaN", r)
  | None =>
  match drop_prefix "Infinity" s with
  | Some r => Some (JFloat "Infinity", r)
  | None =>
  match drop_prefix "-Infinity" s with
  | Some r => Some (JFloat "-Infinity", r)
  | None => None
  end end end end end end end.

(** [scan_once], with [JSONObject] ([scan_pairs], entered where the quote
    of a key is expected) and [JSONArray] ([scan_items], entered where an
    item is expected).  The fuel bounds the depth of the calls. *)
Fixpoint scan_once (fuel : nat) (s : string) : option (value * string) :=
  match fuel with
  | O => None
  | S fuel' =>
      match s with
      | EmptyString => None
      | String c s' =>
          if Ascii.eqb c dquote then
            match scanstring s' with
            | Some (str, rest) => Some (JStr str, rest)
            | None => None
            end
          else if Ascii.eqb c "{" then
            match eat "}" (skip_ws s') with
            | Some rest => Some (JDict [], rest)
            | None =>
                match scan_pairs fuel' (skip_ws s') [] with
                | Some (d, rest) => Some (JDict d, rest)
                | None => None
                end
            end
          else if Ascii.eqb c "[" then
            match eat "]" (skip_ws s') with
            | Some rest => Some (JList [], rest)
            | None =>
                match scan_items fuel' (skip_ws s') with
                | Some (l, rest) => Some (JList l, rest)
                | None => None
                end
            end
          else scan_atom s
      end
  end
with scan_pairs (fuel : nat) (s : string) (acc : dict)
  : option (dict * string) :=
  match fuel with
  | O => None
  | S fuel' =>
      match s with
      | EmptyString => None
      | String q s1 =>
          if negb (Ascii.eqb q dquote) then None
          else
            match scanstring s1 with
            | None => None
            | Some (key, s2) =>
                match eat ":" (skip_ws s2) with
                | Some s3 =>
                    match scan_once fuel' (skip_ws s3) with
                    | None => None
                    | Some (v, s4) =>
                        let acc' := set key v acc in
                        match eat "}" (skip_ws s4), eat "," (skip_ws s4) with
                        | Some rest, _ => Some (acc', rest)
                        | None, Some s5 =>
                            scan_pairs fuel' (skip_ws s5) acc'
                        | None, None => None
                        end
                    end
                | None => None
                end
            end
      end
  end
with scan_items (fuel : nat) (s : string) : option (list value * string) :=
  match fuel with
  | O => None
  | S fuel' =>
      match scan_once fuel' s with
      | None => None
      | Some (v, s1) =>
          match eat "]" (skip_ws s1), eat "," (skip_ws s1) with
          | Some rest, _ => Some ([v], rest)
          | None, Some s2 =>
              match scan_items fuel' (skip_ws s2) with
              | Some (l, rest) => Some (v :: l, rest)
              | None => None
              end
          | None, None => None
          end
      end
  end.

(** The decoding of [json.loads(s)]: one value between optional whitespace
    and nothing after it; [None] where [loads] raises [JSONDecodeError].
    Each call of the scanner that calls another has read a character or is
    an item loop that is about to, so twice the length of the text bounds
    the depth. *)
Definition decode (s : string) : option value :=
  match scan_once (2 * String.length s + 2) (skip_ws s) with
  | Some (v, rest) =>
      match skip_ws rest with
      | EmptyString => Some v
      | _ => None
      end
  | None => None
  end.

End Json.



(** * Arithmetic expressions: what [eval] reads over the allow-list

    Over the characters [0123456789+-*/(). ] a Python expression is built
    from integer and float literals, the empty tuple [()], the ellipsis
    [...], unary [+ -], binary [+ - * / // **], parentheses and calls.  The
    tokenizer and the grammar below are the ones of the language restricted
    to these characters. *)

Module Arith.

Inductive token :=
| NUMBER (n : N)
| FLOAT (lexeme : string)
| PLUS | MINUS | STAR | SLASH | DOUBLESTAR | DOUBLESLASH
| LPAR | RPAR | DOT | ELLIPSIS.

(** What the tokenizer has read of a token that the next character may
    extend. *)
Inductive lex_state :=
| Start
| InInt (digits : string)
| InFloat (lexeme : string)
| Dot1
| Dot2
| Star1
| Slash1.

(** A decimal integer literal: leading zeros are refused unless the
    literal is zero. *)
Definition int_token (digits : string) : option token :=
  match digits with
  | String "0" (String _ _ as rest) =>
      if all_chars (Ascii.eqb "0") rest then Some (NUMBER 0) else None
  | _ => Some (NUMBER (int_of_digits digits))
  end.

(** The tokens a state stands for when no character extends it. *)
Definition flush (st : lex_state) : option (list token) :=
  match st with
  | Start => Some []
  | InInt digits =>
      match int_token digits with
      | Some t => Some [t]
      | None => None
      end
  | InFloat lexeme => Some [FLOAT lexeme]
  | Dot1 => Some [DOT]
  | Dot2 => Some [DOT; DOT]
  | Star1 => Some [STAR]
  | Slash1 => Some [SLASH]
  end.

Definition one (c : ascii) : string := String c EmptyString.

Definition start (c : ascii) : option (list token * lex_state) :=
  if is_digit c then Some ([], InInt (one c))
  else
    match c with
    | "."%char => Some ([], Dot1)
    | "*"%char => Some ([], Star1)
    | "/"%char => Some ([], Slash1)
    | "+"%char => Some ([PLUS], Start)
    | "-"%char => Some ([MINUS], Start)
    | "("%char => Some ([LPAR], Start)
    | ")"%char => Some ([RPAR], Start)
    | " "%char => Some ([], Start)
    | _ => None
    end.

Definition flush_then_start (st : lex_state) (c : ascii)
  : option (list token * lex_state) :=
  match flush st, start c with
  | Some ts, Some (ts', st') => Some (ts ++ ts', st')
  | _, _ => None
  end.

(** One character: the tokens it completes and the next state. *)
Definition step (st : lex_state) (c : ascii)
  : option (list token * lex_state) :=
  match st with
  | Start => start c
  | InInt digits =>
      if is_digit c then Some ([], InInt (digits +:+ one c))
      else if Ascii.eqb c "." then Some ([], InFloat (digits +:+ "."))
      else flush_then_start st c
  | InFloat lexeme =>
      if is_digit c then Some ([], InFloat (lexeme +:+ one c))
      else flush_then_start st c
  | Dot1 =>
      if is_digit c then Some ([], InFloat ("." +:+ one c))
      else if Ascii.eqb c "." then Some ([], Dot2)
      else flush_then_start st c
  | Dot2 =>
      if Ascii.eqb c "." then Some ([ELLIPSIS], Start)
      else if is_digit c then Some ([DOT], InFloat ("." +:+ one c))
      else flush_then_start st c
  | Star1 =>
      if Ascii.eqb c "*" then Some ([DOUBLESTAR], Start)
      else flush_then_start st c
  | Slash1 =>
      if Ascii.eqb c "/" then Some ([DOUBLESLASH], Start)
      else flush_then_start st c
  end.

Fixpoint tokens_from (st : lex_state) (s : string) : option (list token) :=
  match s with
  | EmptyString => flush st
  | String c s' =>
      match step st c with
      | Some (ts, st') =>
          match tokens_from st' s' with
          | Some ts' => Some (ts ++ ts')
          | None => None
          end
      | None => None
      end
  end.

Definition tokenize (s : string) : option (list token) :=
  tokens_from Start s.

(** ** Abstract syntax (the nodes of Python's [ast]) *)

Inductive unaryop := UAdd | USub.
Inductive operator := Add | Sub | Mult | Div | FloorDiv | Pow.
Inductive arg_kind := Positional | Starred | DoubleStarred.

Inductive expr :=
| Int (n : N)
| Float (lexeme : string)
| EmptyTuple
| Ellipsis
| UnaryOp (op : unaryop) (operand : expr)
| BinOp (left : expr) (op : operator) (right : expr)
| Call0 (func : expr)
| Call1 (func : expr) (kind : arg_kind) (arg : expr).

(** ** The grammar

    A sum is terms joined by [+] and [-]; a term is factors joined by [*],
    [/] and [//]; a factor is a power under any number of signs; a power
    is a primary, or a primary, [**] and a factor; a primary is an atom
    followed by any number of calls, each with no argument or with one
    argument (a sum, a sum after [*] or a sum after [**]); an atom is a
    number, the ellipsis, the empty tuple or a sum in parentheses.  The
    left-recursive rules are loops that carry the operand read so far. *)
Inductive nonterminal :=
| Sum | SumRest (left : expr)
| Term | TermRest (left : expr)
| Factor | Power
| Primary | PrimaryRest (func : expr)
| Atom.

Abbreviation parsed := (option (expr * list token)).

Definition closing (r : parsed) (k : expr -> list token -> parsed)
  : parsed :=
  match r with
  | Some (e, RPAR :: ts) => k e ts
  | _ => None
  end.

(** One rule of the grammar, the rules it refers to being read by
    [parse]. *)
Definition parse_step (parse : nonterminal -> list token -> parsed)
    (nt : nonterminal) (ts : list token) : parsed :=
  match nt with
  | Sum =>
      match parse Term ts with
      | Some (t, ts') => parse (SumRest t) ts'
      | None => None
      end
  | SumRest l =>
      match ts with
      | PLUS :: ts' =>
          match parse Term ts' with
          | Some (t, ts'') => parse (SumRest (BinOp l Add t)) ts''
          | None => None
          end
      | MINUS :: ts' =>
          match parse Term ts' with
          | Some (t, ts'') => parse (SumRest (BinOp l Sub t)) ts''
          | None => None
          end
      | _ => Some (l, ts)
      end
  | Term =>
      match parse Factor ts with
      | Some (f, ts') => parse (TermRest f) ts'
      | None => None
      end
  | TermRest l =>
      match ts with
      | STAR :: ts' =>
          match parse Factor ts' with
          | Some (f, ts'') => parse (TermRest (BinOp l Mult f)) ts''
          | None => None
          end
      | SLASH :: ts' =>
          match parse Factor ts' with
          | Some (f, ts'') => parse (TermRest (BinOp l Div f)) ts''
          | None => None
          end
      | DOUBLESLASH :: ts' =>
          match parse Factor ts' with
          | Some (f, ts'') => parse (TermRest (BinOp l FloorDiv f)) ts''
          | None => None
          end
      | _ => Some (l, ts)
      end
  | Factor =>
      match ts with
      | PLUS :: ts' =>
          match parse Factor ts' with
          | Some (f, ts'') => Some (UnaryOp UAdd f, ts'')
          | None => None
          end
      | MINUS :: ts' =>
          match parse Factor ts' with
          | Some (f, ts'') => Some (UnaryOp USub f, ts'')
          | None => None
          end
      | _ => parse Power ts
      end
  | Power =>
      match parse Primary ts with
      | Some (p, DOUBLESTAR :: ts') =>
          match parse Factor ts' with
          | Some (f, ts'') => Some (BinOp p Pow f, ts'')
          | None => None
          end
      | r => r
      end
  | Primary =>
      match parse Atom ts with
      | Some (a, ts') => parse (PrimaryRest a) ts'
      | None => None
      end
  | PrimaryRest func =>
      match ts with
      | LPAR :: RPAR :: ts' => parse (PrimaryRest (Call0 func)) ts'
      | LPAR :: STAR :: ts' =>
          closing (parse Sum ts') (fun a ts'' =>
            parse (PrimaryRest (Call1 func Starred a)) ts'')
      | LPAR :: DOUBLESTAR :: ts' =>
          closing (parse Sum ts') (fun a ts'' =>
            parse (PrimaryRest (Call1 func DoubleStarred a)) ts'')
      | LPAR :: ts' =>
          closing (parse Sum ts') (fun a ts'' =>
            parse (PrimaryRest (Call1 func Positional a)) ts'')
      | _ => Some (func, ts)
      end
  | Atom =>
      match ts with
      | NUMBER n :: ts' => Some (Int n, ts')
      | FLOAT lexeme :: ts' => Some (Float lexeme, ts')
      | ELLIPSIS :: ts' => Some (Ellipsis, ts')
      | LPAR :: RPAR :: ts' => Some (EmptyTuple, ts')
      | LPAR :: ts' =>
          closing (parse Sum ts') (fun e ts'' => Some (e, ts''))
      | _ => None
      end
  end.

(** The parser: the fuel bounds the depth of the rules in use. *)
Fixpoint parse (fuel : nat) : nonterminal -> list token -> parsed :=
  match fuel with
  | O => fun _ _ => None
  | S fuel' => parse_step (parse fuel')
  end.

(** Between two tokens read the calls go at most six deep (from [Sum] to
    [Atom]). *)
Definition parse_fuel (ts : list token) : nat := 6 * length ts + 6.

(** The expression a source text denotes: the whole text is one [sum]. *)
Definition parse_expression (source : string) : option expr :=
  match tokenize source with
  | Some ts =>
      match parse (parse_fuel ts) Sum ts with
      | Some (e, []) => Some e
      | _ => None
      end
  | None => None
  end.

(** ** Values and the rest of the interpreter

    An integer is exact.  What is not an integer (a float, a complex
    number, the empty tuple, the ellipsis) is an [object] of the runtime,
    whose arithmetic depends on the platform (the C library's [pow], the
    shortest representation of a float) and is taken as an interface. *)

Inductive val (O : Type) :=
| VInt (z : Z)
| VObj (o : O).
Arguments VInt {O} z.
Arguments VObj {O} o.

(** The errors the interpreter itself raises in this program; the text of
    each ([str(e)]) differs between releases and belongs to the
    runtime. *)
Inductive failure (O : Type) :=
| invalid_syntax (source : string)
| division_by_zero (op : operator) (dividend : Z)
| bad_call (func : val O) (arg : option (arg_kind * val O))
| not_iterable (v : Json.value)
| unhashable (v : Json.value)
| eval_argument (v : Json.value)
| bad_keywords (kwargs : Json.dict)
| not_a_mapping (v : Json.value)
| no_attribute (v : Json.value) (attr : string)
| invalid_json (text : string)
| index_out_of_range.
Arguments invalid_syntax {O} source.
Arguments division_by_zero {O} op dividend.
Arguments bad_call {O} func arg.
Arguments not_iterable {O} v.
Arguments unhashable {O} v.
Arguments eval_argument {O} v.
Arguments bad_keywords {O} kwargs.
Arguments not_a_mapping {O} v.
Arguments no_attribute {O} v attr.
Arguments invalid_json {O} text.
Arguments index_out_of_range {O}.

Definition class_of {O} (f : failure O) : exn_class :=
  match f with
  | invalid_syntax _ => SyntaxError
  | division_by_zero _ _ => ZeroDivisionError
  | bad_call _ _ | not_iterable _ | unhashable _ | eval_argument _
  | bad_keywords _ | not_a_mapping _ => TypeError
  | no_attribute _ _ => AttributeError
  | invalid_json _ => JSONDecodeError
  | index_out_of_range => IndexError
  end.

Class Runtime := {
  object : Type;
  float_of_literal : string -> object;
  empty_tuple : object;
  ellipsis : object;
  (** [+o] and [-o] *)
  unary : unaryop -> object -> result (val object);
  (** [a op b] where an operand is not an integer, [a / b] for integers
      with [b] not zero, and [a ** b] for integers with [b] negative *)
  binary : operator -> val object -> val object -> result (val object);
  str_object : object -> string;
  error_text : failure object -> string;
  (** The operators raise nothing but [Exception]s ([TypeError],
      [ZeroDivisionError], [OverflowError]). *)
  unary_raises : forall op o e,
    unary op o = Raise e -> issubclass (exn_cls e) Exception = true;
  binary_raises : forall op a b e,
    binary op a b = Raise e -> issubclass (exn_cls e) Exception = true
}.

Definition raise `{Runtime} {A} (f : failure object) : result A :=
  Raise (mk_exn (class_of f) (error_text f)).

Definition unary_op `{Runtime} (op : unaryop) (v : val object)
  : result (val object) :=
  match v with
  | VInt z => Ok (VInt (match op with UAdd => z | USub => - z end))
  | VObj o => unary op o
  end.

(** On integers [+ - *] are exact, [//] rounds to the floor ([Z.div]),
    [**] with an exponent that is not negative is exact. *)
Definition binary_op `{Runtime} (op : operator) (a b : val object)
  : result (val object) :=
  match a, b with
  | VInt x, VInt y =>
      match op with
      | Add => Ok (VInt (x + y))
      | Sub => Ok (VInt (x - y))
      | Mult => Ok (VInt (x * y))
      | FloorDiv =>
          if (y =? 0)%Z then raise (division_by_zero op x)
          else Ok (VInt (x / y))
      | Div =>
          if (y =? 0)%Z then raise (division_by_zero op x)
          else binary op a b
      | Pow => if (0 <=? y)%Z then Ok (VInt (x ^ y)) else binary op a b
      end
  | _, _ => binary op a b
  end.

(** Operands are evaluated from left to right; no value of this language
    is callable, so a call fails once function and argument are
    evaluated. *)
Fixpoint eval_expr `{Runtime} (e : expr) : result (val object) :=
  match e with
  | Int n => Ok (VInt (Z.of_N n))
  | Float lexeme => Ok (VObj (float_of_literal lexeme))
  | EmptyTuple => Ok (VObj empty_tuple)
  | Ellipsis => Ok (VObj ellipsis)
  | UnaryOp op operand => rbind (eval_expr operand) (unary_op op)
  | BinOp l op r =>
      rbind (eval_expr l) (fun a =>
      rbind (eval_expr r) (fun b => binary_op op a b))
  | Call0 func =>
      rbind (eval_expr func) (fun f => raise (bad_call f None))
  | Call1 func kind arg =>
      rbind (eval_expr func) (fun f =>
      rbind (eval_expr arg) (fun a => raise (bad_call f (Some (kind, a)))))
  end.

(** [eval(source)] for a source over the allow-list. *)
Definition eval `{Runtime} (source : string) : result (val object) :=
  match parse_expression source with
  | Some e => eval_expr e
  | None => raise (invalid_syntax source)
  end.

(** [str(v)] *)
Definition str `{Runtime} (v : val object) : string :=
  match v with
  | VInt z => str_int z
  | VObj o => str_object o
  end.

End Arith.
Export Arith.


(** * The program *)

(** ** Data structures *)

Module Message.

(** [@dataclass class Message]: the role is any string (the four roles are
    named in a comment only), the metadata a dict, empty by default. *)
Record t := new {
  role : string;
  content : string;
  metadata : gmap string Json.value
}.

Definition to_dict (self : t) : Json.value :=
  Json.JDict [("role", Json.JStr (role self));
              ("content", Json.JStr (content self))].

End Message.

(** ** Interfaces *)

Module LLMProvider.

(** [generate(messages) -> str].  A provider reads the history it is given
    and does not change it. *)
Record t := new {
  generate : list Message.t -> result string
}.

End LLMProvider.

Module Tool.

(** [execute] receives its keyword arguments as a dict and returns a
    string; [get_schema] of the base class returns [None]. *)
Record t := new {
  name : string;
  description : string;
  execute : Json.dict -> result string;
  get_schema : Json.value
}.

End Tool.

(** ** Implementations *)

Module CalculatorTool.

Definition name : string := "calculator".

Definition description : string :=
  "Useful for performing basic arithmetic calculations. Input should be a mathematical expression string.".

Definition allowed_chars : string := "0123456789+-*/(). ".

(** [c in allowed_chars] for an element [c] of what is iterated: a string
    is in the set when it is one allowed character; a list or a dict
    cannot be hashed; anything else is not in the set. *)
Definition in_allowed `{Runtime} (c : Json.value) : result bool :=
  match c with
  | Json.JStr (String a EmptyString) => Ok (char_in a allowed_chars)
  | Json.JList _ | Json.JDict _ => raise (unhashable c)
  | _ => Ok false
  end.

(** [all(c in allowed_chars for c in items)]: stops at the first element
    that is not in the set. *)
Fixpoint all_allowed `{Runtime} (items : list Json.value) : result bool :=
  match items with
  | [] => Ok true
  | c :: items' =>
      rbind (in_allowed c) (fun b =>
        if b then all_allowed items' else Ok false)
  end.

(** The [try] block of [execute], given the evaluator.  The annotation
    says [expression: str]; a caller may pass any value: iterating a list
    yields its items, iterating a dict its keys, and nothing else that
    [json] builds is iterable; [eval] takes a string only. *)
Definition body `{Runtime} (eval : string -> result (val object))
    (expression : Json.value) : result string :=
  match expression with
  | Json.JStr s =>
      if negb (all_chars (fun c => char_in c allowed_chars) s)
      then Ok "Error: Invalid characters in expression."
      else rbind (eval s) (fun v => Ok (str v))
  | Json.JList items =>
      rbind (all_allowed items) (fun ok =>
        if negb ok then Ok "Error: Invalid characters in expression."
        else raise (eval_argument expression))
  | Json.JDict items =>
      rbind (all_allowed (List.map (fun kv => Json.JStr (fst kv)) items))
        (fun ok =>
          if negb ok then Ok "Error: Invalid characters in expression."
          else raise (eval_argument expression))
  | _ => raise (not_iterable expression)
  end.

(** [def execute(self, expression)], the body under [try ... except
    Exception as e]. *)
Definition execute_with `{Runtime} (eval : string -> result (val object))
    (expression : Json.value) : result string :=
  try_except (body eval expression) Exception (fun e =>
    Ok ("Error executing calculation: " +:+ exn_str e)).

Definition execute `{Runtime} (expression : Json.value) : result string :=
  execute_with Arith.eval expression.

(** The call of [execute] with the keyword arguments [kwargs]: the
    keywords must be exactly [expression]. *)
Definition call `{Runtime} (kwargs : Json.dict) : result string :=
  match kwargs with
  | [(key, expression)] =>
      if String.eqb key "expression" then execute expression
      else raise (bad_keywords kwargs)
  | _ => raise (bad_keywords kwargs)
  end.

Definition get_schema : Json.value :=
  Json.JDict
    [("type", Json.JStr "object");
     ("properties",
      Json.JDict
        [("expression",
          Json.JDict
            [("type", Json.JStr "string");
             ("description",
              Json.JStr
                "The mathematical expression to evaluate (e.g., '2 + 2')")])]);
     ("required", Json.JList [Json.JStr "expression"])].

(** [CalculatorTool()] *)
Definition new `{Runtime} : Tool.t :=
  Tool.new name description call get_schema.

End CalculatorTool.

Module MockLLMProvider.

Definition decision : Json.value :=
  Json.JDict
    [("thought",
      Json.JStr
        "The user wants to calculate something. I should use the calculator tool.");
     ("tool", Json.JStr "calculator");
     ("tool_input", Json.JDict [("expression", Json.JStr "25 * 4")])].

(** [messages[-1]] is [last]; on an empty list it raises [IndexError]. *)
Definition generate `{Runtime} (messages : list Message.t) : result string :=
  match last messages with
  | None => raise index_out_of_range
  | Some last_msg =>
      if String.eqb (Message.role last_msg) "user" then
        if contains (lower (Message.content last_msg)) "calculate"
        then Ok (Json.dumps decision)
        else Ok "I am a simple agent. I can help you with calculations."
      else if String.eqb (Message.role last_msg) "tool" then
        Ok ("The result of the calculation is " +:+ Message.content last_msg)
      else Ok "I don't know what to do."
  end.

(** [MockLLMProvider()] *)
Definition new `{Runtime} : LLMProvider.t := LLMProvider.new generate.

End MockLLMProvider.

Module Memory.

Record t := mk { messages : list Message.t }.

(** [Memory()] *)
Definition new : t := mk [].

Definition add_message (self : t) (message : Message.t) : t :=
  mk (messages self ++ [message]).

Definition get_history (self : t) : list Message.t := messages self.

End Memory.

(** ** The agent *)

Module Agent.

Record t := mk {
  llm : LLMProvider.t;
  tools : gmap string Tool.t;
  memory : Memory.t;
  system_prompt : string
}.

(** [__init__]: in [{t.name: t for t in tools}] a later tool replaces an
    earlier one of the same name. *)
Definition new (llm : LLMProvider.t) (tools : list Tool.t) : t :=
  mk llm
     (foldl (fun d tool => <[Tool.name tool := tool]> d) ∅ tools)
     Memory.new
     "You are a helpful AI assistant with access to tools.".

(** What [run] prints, one constructor for each [print] of the source with
    the values it formats. *)
Inductive output :=
| User (user_query : string)
| AgentThought (thought : Json.value)
| AgentAction (tool_name tool_input : Json.value)
| ToolOutput (tool_result : string)
| AgentResponse (response : string).

(** A method of the agent changes the agent and the console, and returns
    or raises. *)
Record state := st { self : t; stdout : list output }.

Definition M (A : Type) : Type := state -> result A * state.

#[global] Instance M_ret : MRet M := fun A a s => (Ok a, s).
#[global] Instance M_bind : MBind M := fun A B k m s =>
  match m s with
  | (Ok a, s') => k a s'
  | (Raise e, s') => (Raise e, s')
  end.

Definition lift {A} (r : result A) : M A := fun s => (r, s).

Definition gets {A} (f : t -> A) : M A := fun s => (Ok (f (self s)), s).

Definition print (o : output) : M unit :=
  fun s => (Ok tt, st (self s) (stdout s ++ [o])).

(** [self.memory.add_message(message)] *)
Definition add_message (message : Message.t) : M unit :=
  fun s =>
    let a := self s in
    (Ok tt,
     st (mk (llm a) (tools a) (Memory.add_message (memory a) message)
           (system_prompt a))
        (stdout s)).

(** [self.memory.get_history()] *)
Definition get_history : M (list Message.t) :=
  gets (fun a => Memory.get_history (memory a)).

(** [try: body except cls: handler]; what the body did before it raised
    is done. *)
Definition try_except_M {A} (body : M A) (cls : exn_class) (handler : M A)
  : M A :=
  fun s =>
    match body s with
    | (Raise e, s') =>
        if issubclass (exn_cls e) cls then handler s' else (Raise e, s')
    | r => r
    end.

(** [json.loads(text)] *)
Definition json_loads `{Runtime} (text : string) : result Json.value :=
  match Json.decode text with
  | Some v => Ok v
  | None => raise (invalid_json text)
  end.

(** [decision.get(key, default)]: only a dict has the method. *)
Definition get `{Runtime} (decision : Json.value) (key : string)
    (default : Json.value) : result Json.value :=
  match decision with
  | Json.JDict d => Ok (Json.get d key default)
  | _ => raise (no_attribute decision "get")
  end.

(** [tool_name and tool_name in self.tools], with the tool it names.  The
    keys are strings.  The empty string, [None], [False], a zero and an
    empty list or dict are false; [True] and the other numbers are keys of
    no dict of strings; a list or a dict that is not empty cannot be
    hashed. *)
Definition named_tool `{Runtime} (tools : gmap string Tool.t)
    (tool_name : Json.value) : result (option Tool.t) :=
  match tool_name with
  | Json.JStr s => Ok (if String.eqb s "" then None else tools !! s)
  | Json.JNull | Json.JBool _ | Json.JInt _ | Json.JFloat _ => Ok None
  | Json.JList [] | Json.JDict [] => Ok None
  | Json.JList _ | Json.JDict _ => raise (unhashable tool_name)
  end.

(** The unpacking of keyword arguments from [tool_input]: it must be a
    mapping. *)
Definition keywords `{Runtime} (tool_input : Json.value)
  : result Json.dict :=
  match tool_input with
  | Json.JDict d => Ok d
  | _ => raise (not_a_mapping tool_input)
  end.

Definition run `{Runtime} (user_query : string) : M unit :=
  print (User user_query);;
  add_message (Message.new "user" user_query ∅);;
  (* 1. Think / Decide *)
  history ← get_history;
  provider ← gets llm;
  response_text ← lift (LLMProvider.generate provider history);
  try_except_M
    (decision ← lift (json_loads response_text);
     thought ← lift (get decision "thought" Json.JNull);
     print (AgentThought thought);;
     (* 2. Act *)
     tool_name ← lift (get decision "tool" Json.JNull);
     registry ← gets tools;
     tool ← lift (named_tool registry tool_name);
     match tool with
     | Some tool =>
         tool_input ← lift (get decision "tool_input" (Json.JDict []));
         print (AgentAction tool_name tool_input);;
         kwargs ← lift (keywords tool_input);
         tool_result ← lift (Tool.execute tool kwargs);
         print (ToolOutput tool_result);;
         (* 3. Observe *)
         add_message
           (Message.new "tool" tool_result {["tool" := tool_name]});;
         history ← get_history;
         provider ← gets llm;
         final_response ← lift (LLMProvider.generate provider history);
         print (AgentResponse final_response);;
         add_message (Message.new "assistant" final_response ∅)
     | None => print (AgentResponse response_text)
     end)
    JSONDecodeError
    (print (AgentResponse response_text);;
     add_message (Message.new "assistant" response_text ∅)).

End Agent.

(** * A runtime that computes on integers only

    What is not an integer is kept as the term that denotes it, and no
    operation on such a term fails.  The instance shows that the interface
    of the runtime can be met and lets the examples below run; floating
    point itself is not modelled. *)

Module Symbolic.

Inductive term :=
| SFloat (lexeme : string)
| STuple
| SEllipsis
| SInt (z : Z)
| SUnary (op : unaryop) (operand : term)
| SBinary (op : operator) (l r : term).

Definition of_val (v : val term) : term :=
  match v with
  | VInt z => SInt z
  | VObj o => o
  end.

Definition text (f : failure term) : string :=
  match f with
  | invalid_syntax _ => "invalid syntax"
  | division_by_zero _ _ => "division by zero"
  | bad_call _ _ => "object is not callable"
  | not_iterable _ => "object is not iterable"
  | unhashable _ => "unhashable type"
  | eval_argument _ => "eval() arg 1 must be a string, bytes or code object"
  | bad_keywords _ => "missing or unexpected keyword argument"
  | not_a_mapping _ => "argument after ** must be a mapping"
  | no_attribute _ attr => "object has no attribute " +:+ attr
  | invalid_json _ => "Expecting value"
  | index_out_of_range => "list index out of range"
  end.

#[export] Program Instance runtime : Runtime := {|
  object := term;
  float_of_literal := SFloat;
  empty_tuple := STuple;
  ellipsis := SEllipsis;
  unary := fun op o => Ok (VObj (SUnary op o));
  binary := fun op a b => Ok (VObj (SBinary op (of_val a) (of_val b)));
  str_object := fun _ => "<object>";
  error_text := text
|}.
Next Obligation. discriminate. Qed.
Next Obligation. discriminate. Qed.

End Symbolic.

(** * Properties *)

(** ** Exceptions and the calculator *)

Lemma class_of_Exception {O} (f : failure O) :
  issubclass (class_of f) Exception = true.
Proof. destruct f; reflexivity. Qed.

Lemma raise_Exception `{Runtime} {A} (f : failure object) (e : exn) :
  @raise _ A f = Raise e -> issubclass (exn_cls e) Exception = true.
Proof. intros [= <-]. apply class_of_Exception. Qed.

Lemma rbind_Raise {A B} (r : result A) (k : A -> result B) (e : exn) :
  rbind r k = Raise e ->
  r = Raise e \/ exists a, r = Ok a /\ k a = Raise e.
Proof.
  destruct r; simpl; intros Hk; [right; eauto | left; congruence].
Qed.

Lemma unary_op_raises `{Runtime} op v e :
  unary_op op v = Raise e -> issubclass (exn_cls e) Exception = true.
Proof.
  destruct v; simpl; [discriminate | apply unary_raises].
Qed.

Lemma binary_op_raises `{Runtime} op a b e :
  binary_op op a b = Raise e -> issubclass (exn_cls e) Exception = true.
Proof.
  destruct a as [x | o], b as [y | o']; simpl;
    try apply binary_raises.
  destruct op; try discriminate;
    repeat case_match; try discriminate;
    eauto using binary_raises, raise_Exception.
Qed.

(** Whatever the evaluation of an expression raises is an [Exception]. *)
Lemma eval_expr_raises `{Runtime} (x : expr) (e : exn) :
  eval_expr x = Raise e -> issubclass (exn_cls e) Exception = true.
Proof.
  revert e.
  induction x; intros e; simpl; try discriminate; intros Hr.
  - apply rbind_Raise in Hr as [Hr | (a & _ & Hr)];
      eauto using unary_op_raises.
  - apply rbind_Raise in Hr as [Hr | (a & _ & Hr)]; eauto.
    apply rbind_Raise in Hr as [Hr | (b & _ & Hr)];
      eauto using binary_op_raises.
  - apply rbind_Raise in Hr as [Hr | (a & _ & Hr)];
      eauto using raise_Exception.
  - apply rbind_Raise in Hr as [Hr | (a & _ & Hr)]; eauto.
    apply rbind_Raise in Hr as [Hr | (b & _ & Hr)];
      eauto using raise_Exception.
Qed.

Lemma eval_raises `{Runtime} (source : string) (e : exn) :
  Arith.eval source = Raise e -> issubclass (exn_cls e) Exception = true.
Proof.
  unfold Arith.eval. destruct (parse_expression source);
    eauto using eval_expr_raises, raise_Exception.
Qed.

Lemma all_allowed_raises `{Runtime} items e :
  CalculatorTool.all_allowed items = Raise e ->
  issubclass (exn_cls e) Exception = true.
Proof.
  induction items as [| c items IH]; simpl; [discriminate |].
  intros Hr. apply rbind_Raise in Hr as [Hr | (b & _ & Hr)].
  - destruct c as [| | | | s | |]; simpl in Hr;
      try discriminate; eauto using raise_Exception.
    destruct s as [| a [| ? ?]]; discriminate.
  - destruct b; [eauto | discriminate].
Qed.

(** The [try] block raises nothing but [Exception]s when the evaluator
    does. *)
Lemma body_raises `{Runtime} ev expression e :
  (forall s e', ev s = Raise e' -> issubclass (exn_cls e') Exception = true) ->
  CalculatorTool.body ev expression = Raise e ->
  issubclass (exn_cls e) Exception = true.
Proof.
  intros Hev. destruct expression; simpl;
    eauto using raise_Exception.
  - case_match; [discriminate |].
    intros Hr. apply rbind_Raise in Hr as [Hr | (v & _ & Hr)];
      [eauto | discriminate].
  - intros Hr. apply rbind_Raise in Hr as [Hr | (b & _ & Hr)];
      [eauto using all_allowed_raises |].
    destruct b; simpl in Hr; [eauto using raise_Exception | discriminate].
  - intros Hr. apply rbind_Raise in Hr as [Hr | (b & _ & Hr)];
      [eauto using all_allowed_raises |].
    destruct b; simpl in Hr; [eauto using raise_Exception | discriminate].
Qed.

(** [execute] returns a string whatever the argument bound to
    [expression]. *)
Lemma execute_returns `{Runtime} (expression : Json.value) :
  exists text, CalculatorTool.execute expression = Ok text.
Proof.
  unfold CalculatorTool.execute, CalculatorTool.execute_with, try_except.
  destruct (CalculatorTool.body Arith.eval expression) as [text | e] eqn:Hb;
    [eauto |].
  apply body_raises in Hb; [| apply @eval_raises].
  rewrite Hb. eauto.
Qed.

(** The allow-list as the specification words it: the digits and the
    characters [+ - * / ( ) .] and space. *)
Definition allowed (c : ascii) : Prop :=
  is_digit c = true \/ In c ["+"; "-"; "*"; "/"; "("; ")"; "."; " "]%char.

Lemma char_in_allowed_chars (c : ascii) :
  char_in c CalculatorTool.allowed_chars = true <-> allowed c.
Proof.
  unfold allowed.
  destruct c as [[] [] [] [] [] [] [] []]; vm_compute;
    (split; [intros Hc; try discriminate Hc; tauto |]);
    intros [Hc | Hc]; try discriminate Hc; try reflexivity;
    repeat (destruct Hc as [Hc | Hc]; [discriminate Hc |]); destruct Hc.
Qed.

Lemma all_chars_false (p : ascii -> bool) (s : string) (c : ascii) :
  In c (list_ascii_of_string s) -> p c = false -> all_chars p s = false.
Proof.
  induction s as [| d s IH]; simpl; [tauto |].
  intros [-> | Hc] Hp.
  - now rewrite Hp.
  - rewrite IH by assumption. apply andb_false_r.
Qed.

(** C3. An expression with a character outside the allow-list makes
    [execute] return the text about invalid characters, it does not raise,
    and the expression is not evaluated: the result is the same whatever the
    evaluator would do, also one that raises what no handler of [execute]
    catches. *)
Theorem execute_rejects_invalid_characters `{Runtime}
    (expression : string) (c : ascii) :
  In c (list_ascii_of_string expression) ->
  ~ allowed c ->
  CalculatorTool.execute (Json.JStr expression)
    = Ok "Error: Invalid characters in expression."
  /\ forall ev : string -> result (val object),
       CalculatorTool.execute_with ev (Json.JStr expression)
         = Ok "Error: Invalid characters in expression.".
Proof.
  intros Hin Hc.
  assert (Hall : all_chars
                   (fun c => char_in c CalculatorTool.allowed_chars)
                   expression = false).
  { apply all_chars_false with c; [assumption |].
    destruct (char_in c CalculatorTool.allowed_chars) eqn:E; [| reflexivity].
    apply char_in_allowed_chars in E. contradiction. }
  assert (Hev : forall ev : string -> result (val object),
             CalculatorTool.execute_with ev (Json.JStr expression)
             = Ok "Error: Invalid characters in expression.").
  { intros ev. unfold CalculatorTool.execute_with, CalculatorTool.body.
    now rewrite Hall. }
  split; [apply Hev | exact Hev].
Qed.

Lemma execute_rejects_invalid_characters_witness :
  CalculatorTool.execute (H := Symbolic.runtime) (Json.JStr "2+2; rm")
    = Ok "Error: Invalid characters in expression."
  /\ CalculatorTool.execute_with (H := Symbolic.runtime)
       (fun _ => Raise (mk_exn SystemExit "")) (Json.JStr "2+2; rm")
     = Ok "Error: Invalid characters in expression.".
Proof.
  destruct (execute_rejects_invalid_characters (H := Symbolic.runtime)
              "2+2; rm" ";"%char) as [He Hev].
  - simpl. tauto.
  - intros [Hd | Hl]; [discriminate Hd |].
    repeat (destruct Hl as [Hl | Hl]; [discriminate Hl |]). destruct Hl.
  - split; [exact He | apply Hev].
Defined.

(** C4. For every expression string [execute] returns a text: what the
    evaluation raises (a syntax error, a division by zero, an overflow, a
    type error) is an [Exception], the handler of [execute] catches it and
    returns the text of the error. *)
Theorem execute_never_raises `{Runtime} (expression : string) :
  (exists text, CalculatorTool.execute (Json.JStr expression) = Ok text)
  /\ (forall e,
        all_chars (fun c => char_in c CalculatorTool.allowed_chars) expression
          = true ->
        Arith.eval expression = Raise e ->
        issubclass (exn_cls e) Exception = true
        /\ CalculatorTool.execute (Json.JStr expression)
           = Ok ("Error executing calculation: " +:+ exn_str e)).
Proof.
  split; [apply execute_returns |].
  intros e Hall He.
  pose proof (eval_raises _ _ He) as Hc.
  split; [exact Hc |].
  unfold CalculatorTool.execute, CalculatorTool.execute_with,
    CalculatorTool.body.
  rewrite Hall, He. unfold try_except; simpl.
  now rewrite Hc.
Qed.

Lemma execute_never_raises_witness :
  CalculatorTool.execute (H := Symbolic.runtime) (Json.JStr "1/0")
  = Ok "Error executing calculation: division by zero"
  /\ CalculatorTool.execute (H := Symbolic.runtime) (Json.JStr "(1")
     = Ok "Error executing calculation: invalid syntax".
Proof.
  split.
  - apply (proj2 (execute_never_raises (H := Symbolic.runtime) "1/0")
             (mk_exn ZeroDivisionError "division by zero"));
      reflexivity.
  - apply (proj2 (execute_never_raises (H := Symbolic.runtime) "(1")
             (mk_exn SyntaxError "invalid syntax"));
      reflexivity.
Defined.

(** ** The scripted model *)







(** The text of the structured decision. *)
Definition decision_text : string :=
  "{" +:+ quote +:+ "thought" +:+ quote +:+ ": " +:+ quote
  +:+ "The user wants to calculate something. I should use the calculator tool."
  +:+ quote +:+ ", " +:+ quote +:+ "tool" +:+ quote +:+ ": " +:+ quote
  +:+ "calculator" +:+ quote +:+ ", " +:+ quote +:+ "tool_input" +:+ quote
  +:+ ": {" +:+ quote +:+ "expression" +:+ quote +:+ ": " +:+ quote
  +:+ "25 * 4" +:+ quote +:+ "}}".



(** ** Memory *)

(** The roles the comment of [Message] names. *)
Definition permitted_roles : list string :=
  ["system"; "user"; "assistant"; "tool"].

(** C9, as amended. [add_message] appends the message at the end of the
    sequence and validates nothing: any role, content and metadata are
    accepted. *)
Theorem add_message_appends (self : Memory.t) (message : Message.t) :
  Memory.get_history (Memory.add_message self message)
  = Memory.get_history self ++ [message].
Proof. reflexivity. Qed.

(** C9 as stated fails: a message whose role is none of the four permitted
    ones is appended like any other. *)
Lemma add_message_validates_no_role :
  ~ In "moderator" permitted_roles
  /\ Memory.get_history
       (Memory.add_message Memory.new (Message.new "moderator" "hello" ∅))
     = [Message.new "moderator" "hello" ∅].
Proof.
  split; [| reflexivity].
  intros Hin. repeat (destruct Hin as [Hin | Hin]; [discriminate Hin |]).
  destruct Hin.
Qed.

(** ** The agent loop *)

(** C1. A fresh agent with the scripted model and the calculator, run on the
    query, ends with three messages in its memory: the user message, the
    tool message [100] with the calculator as metadata, and the assistant
    message with the result sentence. *)
Theorem run_calculation_end_to_end `{Runtime} (out : list Agent.output) :
  let agent := Agent.new MockLLMProvider.new [CalculatorTool.new] in
  let r := Agent.run "Please calculate 25 * 4 for me." (Agent.st agent out) in
  fst r = Ok tt
  /\ Memory.get_history (Agent.memory (Agent.self (snd r)))
     = [Message.new "user" "Please calculate 25 * 4 for me." ∅;
        Message.new "tool" "100" {["tool" := Json.JStr "calculator"]};
        Message.new "assistant" "The result of the calculation is 100" ∅].
Proof. vm_compute. split; reflexivity. Qed.

(** What a method leaves in the memory extends what was there. *)
Definition extends (s s' : Agent.state) : Prop :=
  exists new,
    Memory.get_history (Agent.memory (Agent.self s'))
    = Memory.get_history (Agent.memory (Agent.self s)) ++ new.

Definition grows {A} (m : Agent.M A) : Prop :=
  forall s, extends s (snd (m s)).

Lemma extends_refl s : extends s s.
Proof. exists []. now rewrite app_nil_r. Qed.

Lemma extends_trans s1 s2 s3 : extends s1 s2 -> extends s2 s3 -> extends s1 s3.
Proof.
  intros [n1 H1] [n2 H2]. exists (n1 ++ n2). now rewrite H2, H1, app_assoc.
Qed.

Lemma grows_bind {A B} (m : Agent.M A) (k : A -> Agent.M B) :
  grows m -> (forall a, grows (k a)) -> grows (m ≫= k).
Proof.
  intros Hm Hk s. unfold mbind, Agent.M_bind. specialize (Hm s).
  destruct (m s) as [[a | e] s']; simpl in *; [| assumption].
  eapply extends_trans; [eassumption | apply Hk].
Qed.

Lemma grows_lift {A} (r : result A) : grows (Agent.lift r).
Proof. intros s. apply extends_refl. Qed.

Lemma grows_gets {A} (f : Agent.t -> A) : grows (Agent.gets f).
Proof. intros s. apply extends_refl. Qed.

Lemma grows_print o : grows (Agent.print o).
Proof. intros s. exists []. simpl. now rewrite app_nil_r. Qed.

Lemma grows_add_message message : grows (Agent.add_message message).
Proof. intros s. now exists [message]. Qed.

Lemma grows_try_except {A} (body handler : Agent.M A) cls :
  grows body -> grows handler -> grows (Agent.try_except_M body cls handler).
Proof.
  intros Hb Hh s. unfold Agent.try_except_M. specialize (Hb s).
  destruct (body s) as [[a | e] s']; simpl in *; [assumption |].
  destruct (issubclass _ _); simpl; [| assumption].
  eapply extends_trans; [eassumption | apply Hh].
Qed.

Lemma grows_run `{Runtime} (user_query : string) :
  grows (Agent.run user_query).
Proof.
  unfold Agent.run.
  repeat first
    [ apply grows_bind; [| intros ?]
    | apply grows_try_except
    | apply grows_lift | apply grows_gets | apply grows_print
    | apply grows_add_message
    | match goal with |- grows (match ?x with _ => _ end) => destruct x end ].
Qed.

(** C8. The memory is append-only.  Whatever the model and the tools do,
    and whether [run] returns or raises, the messages that were in the
    memory before the call are, unchanged and in the same order, the first
    messages after it; [add_message], the only operation of [Memory] that
    writes, appends and [get_history] reads. *)
Theorem run_memory_append_only `{Runtime}
    (agent : Agent.t) (out : list Agent.output) (user_query : string) :
  let before := Memory.get_history (Agent.memory agent) in
  let after :=
    Memory.get_history
      (Agent.memory
         (Agent.self (snd (Agent.run user_query (Agent.st agent out))))) in
  (exists new, after = before ++ new)
  /\ firstn (length before) after = before
  /\ forall (memory : Memory.t) (message : Message.t),
       Memory.get_history (Memory.add_message memory message)
       = Memory.get_history memory ++ [message].
Proof.
  intros before after.
  destruct (grows_run user_query (Agent.st agent out)) as [new Hnew].
  fold after in Hnew. simpl in Hnew. fold before in Hnew.
  split; [eauto |]. split; [| reflexivity].
  rewrite Hnew. rewrite firstn_app, Nat.sub_diag, firstn_all. simpl.
  apply app_nil_r.
Qed.

(** *** The paths of [run] *)

Definition user_message (user_query : string) : Message.t :=
  Message.new "user" user_query ∅.

(** The agent with another memory. *)
Definition with_memory (agent : Agent.t) (memory : Memory.t) : Agent.t :=
  Agent.mk (Agent.llm agent) (Agent.tools agent) memory
    (Agent.system_prompt agent).

(** The memory once [run] has recorded the query. *)
Definition asked (agent : Agent.t) (user_query : string) : Memory.t :=
  Memory.add_message (Agent.memory agent) (user_message user_query).

Arguments Json.get : simpl never.
Arguments Agent.named_tool : simpl never.
Arguments Agent.keywords : simpl never.

Ltac unfold_run :=
  unfold Agent.run, mbind, Agent.M_bind, Agent.try_except_M, Agent.print,
    Agent.add_message, Agent.get_history, Agent.gets, Agent.lift,
    Agent.json_loads, asked, with_memory, user_message, Memory.get_history;
  simpl.

Section Paths.
Context `{Runtime}.
Variables (agent : Agent.t) (out : list Agent.output).
Variable user_query : string.

Let start := Agent.st agent out.
Let memory1 := asked agent user_query.
Let first_reply :=
  LLMProvider.generate (Agent.llm agent) (Memory.get_history memory1).

(** The model raises: the query is recorded and the exception leaves
    [run]. *)
Lemma run_generate_raises (e : exn) :
  first_reply = Raise e ->
  Agent.run user_query start
  = (Raise e, Agent.st (with_memory agent memory1) (out ++ [Agent.User user_query])).
Proof.
  subst start memory1 first_reply. destruct agent. unfold_run.
  intros ->. reflexivity.
Qed.

(** The reply is not JSON: it is the answer. *)
Lemma run_not_json (response_text : string) :
  first_reply = Ok response_text ->
  Json.decode response_text = None ->
  Agent.run user_query start
  = (Ok tt,
     Agent.st
       (with_memory agent
          (Memory.add_message memory1
             (Message.new "assistant" response_text ∅)))
       (out ++ [Agent.User user_query; Agent.AgentResponse response_text])).
Proof.
  subst start memory1 first_reply. destruct agent. unfold_run.
  intros -> ->. simpl. now rewrite <- app_assoc.
Qed.




(** The object names a tool. *)
Lemma run_tool (response_text : string) (d : Json.dict) (tool : Tool.t) :
  first_reply = Ok response_text ->
  Json.decode response_text = Some (Json.JDict d) ->
  Agent.named_tool (Agent.tools agent) (Json.get d "tool" Json.JNull)
  = Ok (Some tool) ->
  let tool_name := Json.get d "tool" Json.JNull in
  let tool_input := Json.get d "tool_input" (Json.JDict []) in
  let out2 :=
    out ++ [Agent.User user_query;
            Agent.AgentThought (Json.get d "thought" Json.JNull);
            Agent.AgentAction tool_name tool_input] in
  Agent.run user_query start
  = match Agent.keywords tool_input with
    | Raise e => (Raise e, Agent.st (with_memory agent memory1) out2)
    | Ok kwargs =>
        match Tool.execute tool kwargs with
        | Raise e =>
            if issubclass (exn_cls e) JSONDecodeError then
              (Ok tt,
               Agent.st
                 (with_memory agent
                    (Memory.add_message memory1
                       (Message.new "assistant" response_text ∅)))
                 (out2 ++ [Agent.AgentResponse response_text]))
            else (Raise e, Agent.st (with_memory agent memory1) out2)
        | Ok tool_result =>
            let memory2 :=
              Memory.add_message memory1
                (Message.new "tool" tool_result {["tool" := tool_name]}) in
            let out3 := out2 ++ [Agent.ToolOutput tool_result] in
            match LLMProvider.generate (Agent.llm agent)
                    (Memory.get_history memory2) with
            | Raise e =>
                if issubclass (exn_cls e) JSONDecodeError then
                  (Ok tt,
                   Agent.st
                     (with_memory agent
                        (Memory.add_message memory2
                           (Message.new "assistant" response_text ∅)))
                     (out3 ++ [Agent.AgentResponse response_text]))
                else (Raise e, Agent.st (with_memory agent memory2) out3)
            | Ok final_response =>
                (Ok tt,
                 Agent.st
                   (with_memory agent
                      (Memory.add_message memory2
                         (Message.new "assistant" final_response ∅)))
                   (out3 ++ [Agent.AgentResponse final_response]))
            end
        end
    end.
Proof.
  subst start memory1 first_reply. destruct agent. unfold_run.
  intros -> -> Hn. simpl. rewrite Hn. simpl. unfold Agent.keywords.
  destruct (Json.get d "tool_input" (Json.JDict [])); simpl;
    rewrite <- ?app_assoc; simpl; try reflexivity.
  destruct (Tool.execute tool items) as [tool_result | e]; simpl.
  - destruct (LLMProvider.generate _ _) as [final | e]; simpl;
      [| destruct (issubclass _ _)]; rewrite <- ?app_assoc; reflexivity.
  - destruct (issubclass _ _); rewrite <- ?app_assoc; reflexivity.
Qed.

End Paths.









(** Two outcomes of [run] that differ at most in the model the agent
    holds. *)
Definition same_outcome (r r' : result unit * Agent.state) : Prop :=
  fst r = fst r'
  /\ Agent.memory (Agent.self (snd r)) = Agent.memory (Agent.self (snd r'))
  /\ Agent.tools (Agent.self (snd r)) = Agent.tools (Agent.self (snd r'))
  /\ Agent.stdout (snd r) = Agent.stdout (snd r').

(** C10. The scripted model reads the last message and raises an
    [IndexError] on an empty history.  [run] never reaches that case: it
    appends the user message before it calls the model, so what a model does
    on the empty history has no effect on [run]. *)
Theorem generate_needs_history `{Runtime} :
  MockLLMProvider.generate [] = Raise (mk_exn IndexError (error_text index_out_of_range))
  /\ forall (agent : Agent.t) (other : LLMProvider.t)
       (out : list Agent.output) (user_query : string),
       (forall history, history <> [] ->
          LLMProvider.generate other history
          = LLMProvider.generate (Agent.llm agent) history) ->
       same_outcome
         (Agent.run user_query (Agent.st agent out))
         (Agent.run user_query
            (Agent.st
               (Agent.mk other (Agent.tools agent) (Agent.memory agent)
                  (Agent.system_prompt agent))
               out)).
Proof.
  split; [reflexivity |].
  intros [p tools memory sp] other out user_query Hsame.
  simpl in Hsame. unfold same_outcome. unfold_run.
  assert (Hne : forall (l : list Message.t) m, l ++ [m] <> []).
  { intros l m Hnil. now apply app_eq_nil in Hnil as [_ Hnil]. }
  rewrite Hsame by apply Hne.
  destruct (LLMProvider.generate p _) as [response_text | e]; simpl;
    [| now auto].
  destruct (Json.decode response_text) as [decision |]; simpl; [| now auto].
  repeat
    match goal with
    | |- context [LLMProvider.generate other ?h] =>
        rewrite (Hsame h) by apply Hne
    | |- context [match ?x with _ => _ end] =>
        match type of x with
        | result _ => destruct x
        | option _ => destruct x
        | bool => destruct x
        end; simpl
    end;
    auto.
Qed.

(** The scripted model made total: on the empty history it answers with the
    empty text. *)
Definition total_mock `{Runtime} : LLMProvider.t :=
  LLMProvider.new (fun history =>
    match history with
    | [] => Ok EmptyString
    | _ => MockLLMProvider.generate history
    end).

Lemma generate_needs_history_witness :
  let agent :=
    Agent.new (MockLLMProvider.new (H := Symbolic.runtime))
      [CalculatorTool.new (H := Symbolic.runtime)] in
  same_outcome
    (Agent.run (H := Symbolic.runtime) "Please calculate 25 * 4 for me."
       (Agent.st agent []))
    (Agent.run (H := Symbolic.runtime) "Please calculate 25 * 4 for me."
       (Agent.st
          (Agent.mk (total_mock (H := Symbolic.runtime)) (Agent.tools agent)
             (Agent.memory agent) (Agent.system_prompt agent))
          [])).
Proof.
  intros agent.
  apply (proj2 (generate_needs_history (H := Symbolic.runtime)) agent
           (total_mock (H := Symbolic.runtime)) []
           "Please calculate 25 * 4 for me.").
  intros [| m history] Hne; [contradiction | reflexivity].
Defined.

(** An agent built with the calculator alone, its memory being arbitrary. *)
Definition calculator_agent `{Runtime} (llm : LLMProvider.t)
    (memory : Memory.t) : Agent.t :=
  with_memory (Agent.new llm [CalculatorTool.new]) memory.


Lemma calculator_lookup `{Runtime} (llm : LLMProvider.t) (memory : Memory.t)
    (tool_name : string) :
  Agent.tools (calculator_agent llm memory) !! tool_name
  = if String.eqb tool_name "calculator" then Some CalculatorTool.new
    else None.
Proof.
  change (Agent.tools (calculator_agent llm memory))
    with (<["calculator" := CalculatorTool.new]> (∅ : gmap string Tool.t)).
  destruct (String.eqb_spec tool_name "calculator") as [-> | Hne].
  - apply lookup_insert_eq.
  - rewrite lookup_insert_ne by congruence. apply lookup_empty.
Qed.

Lemma call_returns `{Runtime} (kwargs : Json.dict) :
  (exists text, CalculatorTool.call kwargs = Ok text)
  <-> exists expression, kwargs = [("expression", expression)].
Proof.
  unfold CalculatorTool.call. split.
  - intros [text Ht].
    destruct kwargs as [| [key expression] [| ? ?]]; try discriminate Ht.
    destruct (String.eqb_spec key "expression") as [-> | _];
      [eauto | discriminate Ht].
  - intros [expression ->]. simpl. apply execute_returns.
Qed.









(** ** Integer arithmetic

    The expressions of exact integer arithmetic, as they are written:
    literals, parentheses, signs, [+ - * // **].  (True division [/] yields
    a float and is left to the runtime.) *)

Inductive aexpr :=
| ALit (n : N)
| AParen (a : aexpr)
| APos (a : aexpr)
| ANeg (a : aexpr)
| APow (a b : aexpr)
| AMul (a b : aexpr)
| AFloorDiv (a b : aexpr)
| AAdd (a b : aexpr)
| ASub (a b : aexpr).

(** The value of an expression in the integers, where it has one: no
    division by zero and no negative exponent.  [Z.div] rounds to the
    floor. *)
Fixpoint denote (e : aexpr) : option Z :=
  match e with
  | ALit n => Some (Z.of_N n)
  | AParen a => denote a
  | APos a => denote a
  | ANeg a => x ← denote a; Some (- x)%Z
  | APow a b =>
      x ← denote a; y ← denote b;
      if (0 <=? y)%Z then Some (x ^ y)%Z else None
  | AMul a b => x ← denote a; y ← denote b; Some (x * y)%Z
  | AFloorDiv a b =>
      x ← denote a; y ← denote b;
      if (y =? 0)%Z then None else Some (x / y)%Z
  | AAdd a b => x ← denote a; y ← denote b; Some (x + y)%Z
  | ASub a b => x ← denote a; y ← denote b; Some (x - y)%Z
  end.

(** How tightly the outermost operator binds: sums 0, products 1, signs 2,
    powers 3, literals and parentheses 4. *)
Definition level (e : aexpr) : nat :=
  match e with
  | AAdd _ _ | ASub _ _ => 0
  | AMul _ _ | AFloorDiv _ _ => 1
  | APos _ | ANeg _ => 2
  | APow _ _ => 3
  | ALit _ | AParen _ => 4
  end.

(** The tokens of an expression written where an operand of level [lvl] is
    expected: the operators are left-associative but [**], whose exponent is
    a signed operand; parentheses are added where the expression binds less
    tightly than its context (and kept where [AParen] has them). *)
Fixpoint toks (lvl : nat) (e : aexpr) : list token :=
  let body :=
    match e with
    | ALit n => [NUMBER n]
    | AParen a => LPAR :: toks 0 a ++ [RPAR]
    | APos a => PLUS :: toks 2 a
    | ANeg a => MINUS :: toks 2 a
    | APow a b => toks 4 a ++ DOUBLESTAR :: toks 2 b
    | AMul a b => toks 1 a ++ STAR :: toks 2 b
    | AFloorDiv a b => toks 1 a ++ DOUBLESLASH :: toks 2 b
    | AAdd a b => toks 0 a ++ PLUS :: toks 1 b
    | ASub a b => toks 0 a ++ MINUS :: toks 1 b
    end in
  if (level e <? lvl)%nat then LPAR :: body ++ [RPAR] else body.

(** The spelling of a token; an integer literal is written in decimal
    without leading zeros. *)
Definition spelling (t : token) : string :=
  match t with
  | NUMBER n => NilEmpty.string_of_uint (N.to_uint n)
  | FLOAT lexeme => lexeme
  | PLUS => "+"
  | MINUS => "-"
  | STAR => "*"
  | SLASH => "/"
  | DOUBLESTAR => "**"
  | DOUBLESLASH => "//"
  | LPAR => "("
  | RPAR => ")"
  | DOT => "."
  | ELLIPSIS => "..."
  end.

Fixpoint spaces (n : nat) : string :=
  match n with
  | O => EmptyString
  | S n' => String " " (spaces n')
  end.

(** The text of a sequence of tokens: [gaps] gives the number of spaces
    before each token and after the last one (none where the list ends). *)
Fixpoint layout (gaps : list nat) (ts : list token) : string :=
  match ts with
  | [] => spaces (hd 0 gaps)
  | t :: ts' => spaces (hd 0 gaps) +:+ spelling t +:+ layout (tl gaps) ts'
  end.

(** An expression as text, with any spacing. *)
Definition show (gaps : list nat) (e : aexpr) : string :=
  layout gaps (toks 0 e).

(** The syntax tree that Python builds: parentheses leave no node. *)
Fixpoint ast (e : aexpr) : expr :=
  match e with
  | ALit n => Int n
  | AParen a => ast a
  | APos a => UnaryOp UAdd (ast a)
  | ANeg a => UnaryOp USub (ast a)
  | APow a b => BinOp (ast a) Pow (ast b)
  | AMul a b => BinOp (ast a) Mult (ast b)
  | AFloorDiv a b => BinOp (ast a) FloorDiv (ast b)
  | AAdd a b => BinOp (ast a) Add (ast b)
  | ASub a b => BinOp (ast a) Sub (ast b)
  end.

Example show_25_times_4 :
  show [0; 1; 1] (AMul (ALit 25) (ALit 4)) = "25 * 4".
Proof. reflexivity. Qed.

Example show_nested :
  show [] (AMul (AAdd (ALit 1) (ALit 2)) (ANeg (APow (ALit 3) (ALit 2))))
  = "(1+2)*-3**2".
Proof. reflexivity. Qed.

(** *** Evaluation of the syntax tree *)

Lemma eval_ast `{Runtime} (e : aexpr) (v : Z) :
  denote e = Some v -> eval_expr (ast e) = Ok (VInt v).
Proof.
  revert v. induction e; intros v; simpl;
    try (destruct (denote e1) as [x |]; [| discriminate];
         destruct (denote e2) as [y |]; [| discriminate]; simpl;
         rewrite (IHe1 x eq_refl), (IHe2 y eq_refl); simpl).
  - now intros [= <-].
  - auto.
  - intros Hv. now rewrite (IHe v Hv).
  - destruct (denote e) as [x |]; [| discriminate]. simpl.
    intros [= <-]. now rewrite (IHe x eq_refl).
  - destruct (0 <=? y)%Z; [now intros [= <-] | discriminate].
  - now intros [= <-].
  - destruct (y =? 0)%Z; [discriminate | now intros [= <-]].
  - now intros [= <-].
  - now intros [= <-].
Qed.

(** *** Decimal literals *)

#[local] Arguments String.append !s1 s2 : simpl nomatch.

Lemma append_assoc (a b c : string) : (a +:+ b) +:+ c = a +:+ (b +:+ c).
Proof. induction a as [| x a IH]; simpl; congruence. Qed.

Lemma append_nil_r (a : string) : a +:+ EmptyString = a.
Proof. induction a as [| x a IH]; simpl; congruence. Qed.

Lemma string_of_uint_digits (d : Decimal.uint) :
  all_chars is_digit (NilEmpty.string_of_uint d) = true.
Proof. induction d; simpl; auto. Qed.

(** A number is written as [0] or with a first digit that is not zero. *)
Lemma to_uint_canonical (n : N) :
  N.to_uint n = Decimal.D0 Decimal.Nil
  \/ (N.to_uint n <> Decimal.Nil /\ forall d, N.to_uint n <> Decimal.D0 d).
Proof.
  pose proof (DecimalN.Unsigned.to_of (N.to_uint n)) as Hn.
  rewrite DecimalN.Unsigned.of_to in Hn.
  unfold Decimal.unorm in Hn.
  pose proof (DecimalFacts.nzhead_nonzero (N.to_uint n)) as Hz.
  destruct (Decimal.nzhead (N.to_uint n)) eqn:Hh;
    try (right; rewrite Hn; split; [discriminate | exact Hz]).
  left. exact Hn.
Qed.

Lemma int_of_digits_decimal (n : N) :
  int_of_digits (NilEmpty.string_of_uint (N.to_uint n)) = n.
Proof.
  unfold int_of_digits. rewrite NilEmpty.usu.
  apply DecimalN.Unsigned.of_to.
Qed.

Lemma int_token_decimal (n : N) :
  int_token (NilEmpty.string_of_uint (N.to_uint n)) = Some (NUMBER n).
Proof.
  unfold int_token.
  pose proof (int_of_digits_decimal n) as Hv.
  destruct (to_uint_canonical n) as [Hz | [Hnil Hnz]].
  - rewrite Hz in *. simpl in *. now rewrite Hv.
  - destruct (N.to_uint n) as [| d | d | d | d | d | d | d | d | d | d];
      simpl in *; try (now rewrite Hv).
    now destruct (Hnz d).
Qed.

(** The literal is a digit followed by digits. *)
Lemma decimal_digits (n : N) :
  exists c ds,
    NilEmpty.string_of_uint (N.to_uint n) = String c ds
    /\ is_digit c = true /\ all_chars is_digit ds = true.
Proof.
  pose proof (string_of_uint_digits (N.to_uint n)) as Hd.
  destruct (to_uint_canonical n) as [Hz | [Hnil _]].
  - rewrite Hz. simpl. eauto.
  - destruct (NilEmpty.string_of_uint (N.to_uint n)) as [| c ds] eqn:Hs.
    + destruct (N.to_uint n); try discriminate Hs. now destruct Hnil.
    + simpl in Hd. apply andb_true_iff in Hd as [Hc Hds]. eauto.
Qed.

(** *** The tokenizer reads back what is written *)

Definition head_char (s : string) : option ascii :=
  match s with
  | String c _ => Some c
  | EmptyString => None
  end.

(** The character extends the token the state holds. *)
Definition continues (st : lex_state) (c : ascii) : bool :=
  match st with
  | Start => false
  | InInt _ | Dot1 | Dot2 => is_digit c || Ascii.eqb c "."
  | InFloat _ => is_digit c
  | Star1 => Ascii.eqb c "*"
  | Slash1 => Ascii.eqb c "/"
  end.

Lemma flush_boundary (st : lex_state) (ts : list token) (rest : string) :
  flush st = Some ts ->
  (forall c, head_char rest = Some c -> continues st c = false) ->
  tokens_from st rest = option_map (app ts) (tokens_from Start rest).
Proof.
  intros Hf Hc. destruct rest as [| c rest]; simpl.
  - rewrite Hf. simpl. now rewrite app_nil_r.
  - specialize (Hc c eq_refl).
    assert (Hs : step st c = flush_then_start st c).
    { destruct st; simpl in *; try reflexivity.
      - unfold flush_then_start. simpl. now destruct (start c) as [[? ?] |].
      - apply orb_false_iff in Hc as [-> ->]. reflexivity.
      - now rewrite Hc.
      - apply orb_false_iff in Hc as [-> ->]. reflexivity.
      - apply orb_false_iff in Hc as [-> ->]. reflexivity.
      - now rewrite Hc.
      - now rewrite Hc. }
    rewrite Hs. unfold flush_then_start. rewrite Hf.
    destruct (start c) as [[ts' st'] |]; simpl; [| reflexivity].
    destruct (tokens_from st' rest); simpl; [| reflexivity].
    now rewrite app_assoc.
Qed.

Lemma tokens_from_digits (ds acc rest : string) :
  all_chars is_digit ds = true ->
  tokens_from (InInt acc) (ds +:+ rest) = tokens_from (InInt (acc +:+ ds)) rest.
Proof.
  revert acc. induction ds as [| c ds IH]; intros acc; simpl.
  - intros _. now rewrite append_nil_r.
  - intros Hd. apply andb_true_iff in Hd as [Hc Hds]. rewrite Hc.
    rewrite IH by assumption. simpl. unfold one.
    rewrite append_assoc. simpl.
    now destruct (tokens_from _ rest).
Qed.

Lemma tokens_from_spaces (n : nat) (s : string) :
  tokens_from Start (spaces n +:+ s) = tokens_from Start s.
Proof.
  induction n as [| n IH]; simpl; [reflexivity |].
  rewrite IH. now destruct (tokens_from Start s).
Qed.

(** The tokens of integer arithmetic. *)
Definition simple (t : token) : bool :=
  match t with
  | NUMBER _ | PLUS | MINUS | STAR | DOUBLESTAR | DOUBLESLASH | LPAR | RPAR =>
      true
  | _ => false
  end.

(** What follows the token does not extend it: no digit or dot after a
    number, no star after a star. *)
Definition next_ok (t : token) (next : option ascii) : bool :=
  match t, next with
  | NUMBER _, Some c => negb (is_digit c || Ascii.eqb c ".")
  | STAR, Some c => negb (Ascii.eqb c "*")
  | _, _ => true
  end.

Lemma tokens_from_spelling (t : token) (rest : string) :
  simple t = true ->
  next_ok t (head_char rest) = true ->
  tokens_from Start (spelling t +:+ rest)
  = option_map (cons t) (tokens_from Start rest).
Proof.
  intros Hs Hn. destruct t; try discriminate Hs; simpl;
    try (now destruct (tokens_from Start rest)).
  - (* NUMBER *)
    destruct (decimal_digits n) as (c & ds & Hsp & Hc & Hds).
    pose proof (int_token_decimal n) as Htok.
    rewrite Hsp in *. simpl. unfold start. rewrite Hc.
    rewrite tokens_from_digits by assumption. simpl.
    rewrite (flush_boundary _ [NUMBER n]).
    + now destruct (tokens_from Start rest).
    + unfold flush. change (one c +:+ ds) with (String c ds).
      now rewrite Htok.
    + intros c' Hc'. rewrite Hc' in Hn. simpl in *.
      now apply negb_true_iff in Hn.
  - (* STAR *)
    rewrite (flush_boundary _ [STAR]).
    + now destruct (tokens_from Start rest).
    + reflexivity.
    + intros c' Hc'. rewrite Hc' in Hn. simpl in *.
      now apply negb_true_iff in Hn.
Qed.

(** [t'] may be written right after [t] with no space: two numbers would
    read as one, a star before a star as a power. *)
Definition follows (t t' : token) : bool :=
  match t, t' with
  | NUMBER _, NUMBER _ => false
  | STAR, (STAR | DOUBLESTAR) => false
  | _, _ => true
  end.

Fixpoint chained (ts : list token) : bool :=
  match ts with
  | [] => true
  | t :: ts' =>
      match ts' with
      | [] => true
      | t' :: _ => follows t t' && chained ts'
      end
  end.

Lemma spelling_head (t : token) :
  simple t = true -> exists c s, spelling t = String c s.
Proof.
  destruct t; try discriminate; intros _; simpl; eauto.
  destruct (decimal_digits n) as (c & ds & -> & _). eauto.
Qed.

Lemma digit_not_star (c : ascii) :
  is_digit c = true -> Ascii.eqb c "*" = false.
Proof.
  intros Hc. destruct (Ascii.eqb_spec c "*") as [-> | _];
    [discriminate Hc | reflexivity].
Qed.

Lemma follows_next_ok (t t' : token) (rest : string) :
  simple t' = true -> follows t t' = true ->
  next_ok t (head_char (spelling t' +:+ rest)) = true.
Proof.
  intros Hs Hf.
  destruct t; try reflexivity;
    destruct t'; try discriminate Hs; try discriminate Hf;
    try reflexivity.
  destruct (decimal_digits n) as (c & ds & Hsp & Hc & _).
  simpl. rewrite Hsp. simpl. now rewrite digit_not_star.
Qed.

Lemma next_ok_layout (t : token) (gaps : list nat) (ts : list token) :
  forallb simple ts = true ->
  chained (t :: ts) = true ->
  next_ok t (head_char (layout gaps ts)) = true.
Proof.
  intros Hs Hc.
  destruct ts as [| t' ts]; simpl layout.
  - destruct (hd 0 gaps); simpl; now destruct t.
  - destruct (hd 0 gaps); simpl; [| now destruct t].
    simpl in Hs, Hc. apply andb_true_iff in Hs as [Hs _].
    apply andb_true_iff in Hc as [Hc _].
    now apply follows_next_ok.
Qed.

Lemma chained_tail (t : token) (ts : list token) :
  chained (t :: ts) = true -> chained ts = true.
Proof.
  simpl. destruct ts; [reflexivity |]. intros Hc.
  now apply andb_true_iff in Hc as [_ Hc].
Qed.

(** The tokenizer reads the tokens back from any layout of them. *)
Lemma tokenize_layout (ts : list token) (gaps : list nat) :
  forallb simple ts = true ->
  chained ts = true ->
  tokenize (layout gaps ts) = Some ts.
Proof.
  unfold tokenize. revert gaps.
  induction ts as [| t ts IH]; intros gaps Hs Hc; simpl layout.
  - rewrite <- (append_nil_r (spaces _)). now rewrite tokens_from_spaces.
  - simpl in Hs. apply andb_true_iff in Hs as [Ht Hs].
    rewrite tokens_from_spaces, tokens_from_spelling;
      [| assumption | now apply next_ok_layout].
    rewrite IH; [reflexivity | assumption | eapply chained_tail, Hc].
Qed.

(** What is written has its characters in the allow-list. *)
Lemma layout_allowed (ts : list token) (gaps : list nat) :
  forallb simple ts = true ->
  all_chars (fun c => char_in c CalculatorTool.allowed_chars) (layout gaps ts)
  = true.
Proof.
  assert (Happ : forall a b,
             all_chars (fun c => char_in c CalculatorTool.allowed_chars)
               (a +:+ b)
             = all_chars (fun c => char_in c CalculatorTool.allowed_chars) a
               && all_chars (fun c => char_in c CalculatorTool.allowed_chars)
                    b).
  { intros a b. induction a as [| x a IH]; [reflexivity |].
    cbn [String.append all_chars]. now rewrite IH, andb_assoc. }
  assert (Hsp : forall n,
             all_chars (fun c => char_in c CalculatorTool.allowed_chars)
               (spaces n) = true).
  { induction n as [| n IH]; [reflexivity |].
    cbn [spaces all_chars]. now rewrite IH. }
  assert (Hdig : forall s, all_chars is_digit s = true ->
             all_chars (fun c => char_in c CalculatorTool.allowed_chars) s
             = true).
  { induction s as [| c s IH]; cbn [all_chars]; [reflexivity |].
    intros Hd. apply andb_true_iff in Hd as [Hc Hd].
    rewrite (IH Hd), andb_true_r.
    apply (proj2 (char_in_allowed_chars c)). now left. }
  revert gaps. induction ts as [| t ts IH]; intros gaps Hs; simpl layout.
  - apply Hsp.
  - simpl in Hs. apply andb_true_iff in Hs as [Ht Hs].
    rewrite !Happ, Hsp, (IH _ Hs), andb_true_r. cbn [andb].
    destruct t; try discriminate Ht; try reflexivity.
    apply Hdig, string_of_uint_digits.
Qed.

(** *** The tokens of an expression *)

Definition opens (t : token) : bool :=
  match t with
  | NUMBER _ | LPAR | PLUS | MINUS => true
  | _ => false
  end.

Definition closes (t : token) : bool :=
  match t with
  | NUMBER _ | RPAR => true
  | _ => false
  end.

Definition infix (t : token) : bool :=
  match t with
  | PLUS | MINUS | STAR | DOUBLESTAR | DOUBLESLASH => true
  | _ => false
  end.

Record wellformed (ts : list token) : Prop := {
  wf_simple : forallb simple ts = true;
  wf_chained : chained ts = true;
  wf_head : exists t, head ts = Some t /\ opens t = true;
  wf_last : exists t, last ts = Some t /\ closes t = true
}.

Lemma chained_cons (t t' : token) (ts : list token) :
  chained (t :: t' :: ts) = follows t t' && chained (t' :: ts).
Proof. reflexivity. Qed.

Lemma chained_app (a : list token) (t : token) (b : list token) :
  chained (a ++ t :: b) = chained (a ++ [t]) && chained (t :: b).
Proof.
  induction a as [| x a IH]; [reflexivity |].
  change ((x :: a) ++ t :: b) with (x :: (a ++ t :: b)).
  change ((x :: a) ++ [t]) with (x :: (a ++ [t])).
  cbn [chained]. rewrite IH.
  destruct a as [| y a]; simpl; [now rewrite andb_true_r |].
  now rewrite andb_assoc.
Qed.

Lemma chained_snoc (a : list token) (t : token) :
  chained (a ++ [t])
  = chained a && match last a with Some x => follows x t | None => true end.
Proof.
  induction a as [| x a IH]; [reflexivity |].
  change ((x :: a) ++ [t]) with (x :: (a ++ [t])).
  cbn [chained]. rewrite IH.
  destruct a as [| y a]; simpl; [now rewrite andb_true_r |].
  now rewrite andb_assoc.
Qed.

Lemma wellformed_number (n : N) : wellformed [NUMBER n].
Proof. split; simpl; eauto. Qed.

Lemma wellformed_wrap (ts : list token) :
  wellformed ts -> wellformed (LPAR :: ts ++ [RPAR]).
Proof.
  intros [Hs Hc (t & Hh & Ho) (t' & Hl & Hcl)]. split.
  - simpl. rewrite forallb_app, Hs. reflexivity.
  - destruct ts as [| x ts]; [discriminate Hh |].
    change (LPAR :: (x :: ts) ++ [RPAR]) with (LPAR :: x :: (ts ++ [RPAR])).
    rewrite chained_cons.
    change (x :: ts ++ [RPAR]) with ((x :: ts) ++ [RPAR]).
    rewrite chained_snoc, Hc, Hl. now destruct t'.
  - exists LPAR. auto.
  - exists RPAR. split; [| reflexivity].
    change (LPAR :: ts ++ [RPAR]) with ((LPAR :: ts) ++ [RPAR]).
    apply last_snoc.
Qed.

Lemma wellformed_sign (op : token) (ts : list token) :
  op = PLUS \/ op = MINUS -> wellformed ts -> wellformed (op :: ts).
Proof.
  intros Hop [Hs Hc (t & Hh & Ho) (t' & Hl & Hcl)].
  destruct ts as [| x ts]; [discriminate Hh |]. split.
  - simpl in *. rewrite Hs. now destruct Hop as [-> | ->].
  - rewrite chained_cons, Hc. now destruct Hop as [-> | ->].
  - exists op. split; [reflexivity | now destruct Hop as [-> | ->]].
  - exists t'. now rewrite last_cons_cons.
Qed.

Lemma wellformed_infix (a : list token) (op : token) (b : list token) :
  infix op = true -> wellformed a -> wellformed b ->
  wellformed (a ++ op :: b).
Proof.
  intros Hop [Hsa Hca (ta & Hha & Hoa) (ta' & Hla & Hcla)]
    [Hsb Hcb (tb & Hhb & Hob) (tb' & Hlb & Hclb)].
  destruct b as [| y b]; [discriminate Hhb |].
  injection Hhb as ->. split.
  - rewrite forallb_app. simpl in *. rewrite Hsa, Hsb.
    now destruct op.
  - rewrite chained_app, chained_snoc, Hca, Hla, chained_cons, Hcb.
    replace (follows ta' op) with true
      by (destruct ta'; try discriminate Hcla; now destruct op).
    replace (follows op tb) with true
      by (destruct op; try discriminate Hop; now destruct tb).
    reflexivity.
  - exists ta. split; [| assumption].
    destruct a; [discriminate Hha | exact Hha].
  - exists tb'. split; [| assumption].
    rewrite last_app_cons, last_cons_cons. exact Hlb.
Qed.

Lemma toks_wellformed (e : aexpr) (lvl : nat) : wellformed (toks lvl e).
Proof.
  revert lvl. induction e; intros lvl; cbn [toks];
    destruct (_ <? lvl)%nat;
    repeat first
      [ apply wellformed_wrap
      | apply wellformed_number
      | apply wellformed_sign; [tauto |]
      | apply wellformed_infix; [reflexivity | |]
      | apply (wellformed_wrap (toks 0 _))
      | solve [auto] ].
Qed.

Lemma tokenize_show (e : aexpr) (gaps : list nat) :
  tokenize (show gaps e) = Some (toks 0 e).
Proof.
  destruct (toks_wellformed e 0) as [Hs Hc _ _].
  now apply tokenize_layout.
Qed.

(** *** The parser reads back the syntax tree *)

Lemma closing_mono (r r' : parsed) (k k' : expr -> list token -> parsed) :
  (forall x, r = Some x -> r' = Some x) ->
  (forall e ts y, k e ts = Some y -> k' e ts = Some y) ->
  forall y, closing r k = Some y -> closing r' k' = Some y.
Proof.
  intros Hr Hk y. destruct r as [[e [| [] ts]] |]; simpl;
    try discriminate.
  rewrite (Hr _ eq_refl). simpl. apply Hk.
Qed.

Ltac rule_call Hfg H :=
  match type of H with
  | context [match ?f ?nt ?ts with _ => _ end] =>
      let E := fresh "E" in
      destruct (f nt ts) as [[? ?] |] eqn:E;
      [rewrite (Hfg _ _ _ E) | discriminate H]
  end.

Lemma parse_step_mono (f g : nonterminal -> list token -> parsed) :
  (forall nt ts r, f nt ts = Some r -> g nt ts = Some r) ->
  forall nt ts r, parse_step f nt ts = Some r -> parse_step g nt ts = Some r.
Proof.
  intros Hfg nt ts r Hr. destruct nt; cbn [parse_step] in *.
  - rule_call Hfg Hr. now apply Hfg.
  - destruct ts as [| [] ts]; try exact Hr;
      rule_call Hfg Hr; now apply Hfg.
  - rule_call Hfg Hr. now apply Hfg.
  - destruct ts as [| [] ts]; try exact Hr;
      rule_call Hfg Hr; now apply Hfg.
  - destruct ts as [| [] ts]; try (now apply Hfg);
      rule_call Hfg Hr; exact Hr.
  - rule_call Hfg Hr.
    match goal with
    | l : list token |- _ =>
        destruct l as [| [] ?]; try exact Hr
    end.
    rule_call Hfg Hr. exact Hr.
  - rule_call Hfg Hr. now apply Hfg.
  - destruct ts as [| [] ts]; try exact Hr.
    destruct ts as [| [] ts]; try (now apply Hfg);
      (revert Hr; apply closing_mono; [now apply Hfg |];
       intros; now apply Hfg).
  - destruct ts as [| [] ts]; try exact Hr.
    destruct ts as [| [] ts]; try exact Hr;
      (revert Hr; apply closing_mono; [now apply Hfg | auto]).
Qed.

Lemma parse_mono (n m : nat) (nt : nonterminal) (ts : list token)
    (r : expr * list token) :
  n <= m -> parse n nt ts = Some r -> parse m nt ts = Some r.
Proof.
  intros Hle. revert nt ts r. induction Hle as [| m Hle IH].
  - auto.
  - intros nt ts r Hr. specialize (IH _ _ _ Hr). clear Hr Hle.
    revert nt ts r IH. induction m as [| m IHm]; [discriminate |].
    intros nt ts r. cbn [parse]. apply parse_step_mono. exact IHm.
Qed.

(** *** The fuel of the parser is enough *)

(** The depth a rule needs beyond six for each token it reads. *)
Definition rank (nt : nonterminal) : nat :=
  match nt with
  | Sum => 6
  | Term => 5
  | Factor => 4
  | Power => 3
  | Primary => 2
  | Atom | SumRest _ | TermRest _ | PrimaryRest _ => 1
  end.

(** The rules that read at least one token. *)
Definition consumes (nt : nonterminal) : nat :=
  match nt with
  | SumRest _ | TermRest _ | PrimaryRest _ => 0
  | _ => 1
  end.

Ltac lift_calls :=
  repeat
    match goal with
    | H : parse ?a ?nt ?ts = Some ?r |- context [parse ?m ?nt ?ts] =>
        rewrite (parse_mono a m nt ts r ltac:(simpl length in *; lia) H);
        cbn [closing]
    end.

Ltac open_step :=
  match goal with
  | |- parse (?a + S ?b) _ _ = _ =>
      rewrite (Nat.add_succ_r a b); cbn [parse parse_step]
  end.

Ltac split_rule Hp :=
  repeat
    (match type of Hp with
     | context [match ?ts with nil => _ | cons _ _ => _ end] =>
         is_var ts; destruct ts as [| [] ?]
     | context [match parse ?n ?nt ?ts with _ => _ end] =>
         destruct (parse n nt ts) as [[? ?] |] eqn:?
     | context [closing _ _] => unfold closing in Hp
     end; cbv beta iota in Hp; try discriminate Hp).

Ltac bounded_calls n IH :=
  repeat
    match goal with
    | H : parse n _ _ = Some _ |- _ =>
        apply IH in H as [? ?]; cbn [rank consumes] in *
    end.

(** A result of the parser is reached with six units of fuel for each token
    read, and the rank of the rule. *)
Lemma parse_bounded (n : nat) :
  forall nt ts e rest,
    parse n nt ts = Some (e, rest) ->
    length rest + consumes nt <= length ts
    /\ parse (6 * (length ts - length rest) + rank nt) nt ts = Some (e, rest).
Proof.
  induction n as [| n IH]; [discriminate |].
  intros nt ts e rest Hp. cbn [parse] in Hp.
  destruct nt; cbn [parse_step] in Hp; split_rule Hp;
    try (injection Hp as <- <-); bounded_calls n IH;
    cbn [rank consumes] in *; simpl length in *;
    (split; [lia | open_step; lift_calls; reflexivity]).
Qed.

(** No result of the parser is lost by the fuel [parse_fuel] gives it. *)
Lemma parse_fuel_suffices (n : nat) (ts : list token) (r : expr * list token) :
  parse n Sum ts = Some r ->
  parse (parse_fuel ts) Sum ts = Some r.
Proof.
  destruct r as [e rest]. intros Hp.
  apply parse_bounded in Hp as [Hlen Hp].
  eapply parse_mono; [| exact Hp].
  unfold parse_fuel. cbn [rank]. lia.
Qed.

(** The rule that reads an operand of each level. *)
Definition nt_of (lvl : nat) : nonterminal :=
  match lvl with
  | 0 => Sum
  | 1 => Term
  | 2 => Factor
  | 3 => Power
  | _ => Primary
  end.

(** What follows an operand of level [lvl] does not continue it: no [**] or
    call after an operand below a primary, no [*], [/], [//] after a sum. *)
Definition stops (lvl : nat) (rest : list token) : bool :=
  match rest with
  | [] => true
  | (DOUBLESTAR | LPAR) :: _ => (4 <=? lvl)%nat
  | (STAR | SLASH | DOUBLESLASH) :: _ => (1 <=? lvl)%nat
  | _ => true
  end.

(** What remains to be done once an operand [a] of level [lvl] is read: the
    loop of the left-recursive rule, if any. *)
Definition continue (n lvl : nat) (a : expr) (rest : list token) : parsed :=
  match lvl with
  | 0 => parse n (SumRest a) rest
  | 1 => parse n (TermRest a) rest
  | 2 | 3 => match n with O => None | S _ => Some (a, rest) end
  | _ => parse n (PrimaryRest a) rest
  end.

(** The tokens [ts] read as the tree [a] where an operand of level [lvl] is
    expected, six units of fuel a token being enough. *)
Definition reads (lvl : nat) (ts : list token) (a : expr) : Prop :=
  forall rest m n r,
    stops lvl rest = true ->
    6 * length ts + n <= m + lvl ->
    continue n lvl a rest = Some r ->
    parse m (nt_of lvl) (ts ++ rest) = Some r.

Definition tight (ts : list token) : bool :=
  match ts with
  | (NUMBER _ | LPAR) :: _ => true
  | _ => false
  end.

Lemma continue_pos n lvl a rest r : continue n lvl a rest = Some r -> 1 <= n.
Proof.
  destruct n; [| lia].
  destruct lvl as [| [| [| [| lvl]]]]; discriminate.
Qed.

Lemma sum_rest_stop n a rest :
  1 <= n ->
  match rest with (PLUS | MINUS) :: _ => False | _ => True end ->
  parse n (SumRest a) rest = Some (a, rest).
Proof.
  destruct n; [lia |]. intros _. cbn [parse parse_step].
  destruct rest as [| [] rest]; tauto.
Qed.

Lemma term_rest_stop n a rest :
  1 <= n -> stops 0 rest = true -> parse n (TermRest a) rest = Some (a, rest).
Proof.
  destruct n; [lia |]. intros _. cbn [parse parse_step].
  destruct rest as [| [] rest]; try reflexivity; discriminate.
Qed.

Lemma primary_rest_stop n a rest :
  1 <= n -> stops 3 rest = true ->
  parse n (PrimaryRest a) rest = Some (a, rest).
Proof.
  destruct n; [lia |]. intros _. cbn [parse parse_step].
  destruct rest as [| [] rest]; try reflexivity; discriminate.
Qed.

Lemma stops_weaken lvl lvl' rest :
  lvl <= lvl' -> stops lvl rest = true -> stops lvl' rest = true.
Proof.
  intros Hle. destruct rest as [| [] rest]; cbn [stops]; try reflexivity;
    intros Hs; apply Nat.leb_le in Hs; apply Nat.leb_le; lia.
Qed.

Lemma stops_primary rest : stops 4 rest = true.
Proof. now destruct rest as [| [] rest]. Qed.

(** An operand of a level is an operand of the level below. *)
Lemma reads_lift lvl ts a :
  lvl < 4 -> ts <> [] -> (lvl = 2 -> tight ts = true) ->
  reads (S lvl) ts a -> reads lvl ts a.
Proof.
  intros Hlvl Hne Htight Hup rest m n r Hstop Hfuel Hcont.
  pose proof (continue_pos _ _ _ _ _ Hcont) as Hn.
  assert (Hlen : 1 <= length ts) by (destruct ts; [congruence | simpl; lia]).
  destruct m as [| m]; [lia |].
  unfold reads in Hup.
  destruct lvl as [| [| [| [| lvl]]]]; [| | | | lia];
    cbn [nt_of parse parse_step] in Hup |- *.
  - rewrite (Hup rest m 1 (a, rest)).
    + eapply parse_mono; [| exact Hcont]. lia.
    + eapply stops_weaken; [| exact Hstop]. lia.
    + lia.
    + now apply term_rest_stop.
  - rewrite (Hup rest m 1 (a, rest)); [| assumption | lia | reflexivity].
    eapply parse_mono; [| exact Hcont]. lia.
  - assert (Hp : parse m Power (ts ++ rest) = Some r).
    { apply (Hup rest m n r); [assumption | lia | exact Hcont]. }
    specialize (Htight eq_refl).
    destruct ts as [| [] ts]; try discriminate Htight; exact Hp.
  - rewrite (Hup rest m 1 (a, rest)).
    + simpl in Hcont. destruct n; [discriminate |].
      injection Hcont as <-.
      destruct rest as [| [] rest]; try reflexivity; discriminate Hstop.
    + apply stops_primary.
    + lia.
    + now apply primary_rest_stop.
Qed.

Lemma reads_down lo hi ts a :
  lo <= hi -> hi <= 4 -> ts <> [] -> (lo <= 2 < hi -> tight ts = true) ->
  reads hi ts a -> reads lo ts a.
Proof.
  intros Hle Hhi Hne Htight. induction Hle as [| hi Hle IH]; [auto |].
  intros Hr. apply IH; [lia | intros; apply Htight; lia |].
  apply reads_lift; [lia | assumption | intros ->; apply Htight; lia |].
  exact Hr.
Qed.

Lemma atom_number m n rest :
  parse (S m) Atom (NUMBER n :: rest) = Some (Int n, rest).
Proof. reflexivity. Qed.

Lemma atom_paren m t ts :
  opens t = true ->
  parse (S m) Atom (LPAR :: t :: ts)
  = closing (parse m Sum (t :: ts)) (fun e ts'' => Some (e, ts'')).
Proof. destruct t; try discriminate; reflexivity. Qed.

Lemma reads_number n : reads 4 [NUMBER n] (Int n).
Proof.
  intros rest m k r _ Hfuel Hcont.
  pose proof (continue_pos _ _ _ _ _ Hcont) as Hk.
  simpl in Hfuel.
  destruct m as [| m]; [lia |].
  cbn [nt_of parse parse_step app].
  destruct m as [| m]; [lia |].
  rewrite atom_number.
  eapply parse_mono; [| exact Hcont]. lia.
Qed.

Lemma reads_paren body a :
  reads 0 body a ->
  (exists t ts, body = t :: ts /\ opens t = true) ->
  reads 4 (LPAR :: body ++ [RPAR]) a.
Proof.
  intros Hbody (t & ts & -> & Ht) rest m k r _ Hfuel Hcont.
  pose proof (continue_pos _ _ _ _ _ Hcont) as Hk.
  rewrite length_cons, length_app in Hfuel. simpl in Hfuel.
  destruct m as [| m]; [lia |].
  cbn [nt_of parse parse_step].
  change ((LPAR :: (t :: ts) ++ [RPAR]) ++ rest)
    with (LPAR :: t :: ((ts ++ [RPAR]) ++ rest)).
  destruct m as [| m]; [lia |].
  rewrite atom_paren by assumption.
  assert (Hsum : parse m Sum (t :: (ts ++ [RPAR]) ++ rest)
                 = Some (a, RPAR :: rest)).
  { change (t :: (ts ++ [RPAR]) ++ rest) with (((t :: ts) ++ [RPAR]) ++ rest).
    rewrite <- app_assoc.
    apply (Hbody (RPAR :: rest) m 1 (a, RPAR :: rest));
      [reflexivity | simpl; lia | reflexivity]. }
  rewrite Hsum. cbn [closing].
  eapply parse_mono; [| exact Hcont]. lia.
Qed.

Lemma reads_sign op u ts a :
  (op = PLUS /\ u = UAdd) \/ (op = MINUS /\ u = USub) ->
  reads 2 ts a -> reads 2 (op :: ts) (UnaryOp u a).
Proof.
  intros Hop Hts rest m k r Hstop Hfuel Hcont.
  pose proof (continue_pos _ _ _ _ _ Hcont) as Hk.
  simpl in Hfuel, Hcont. destruct k; [lia |]. injection Hcont as <-.
  destruct m as [| m]; [lia |].
  cbn [nt_of parse parse_step app].
  assert (Hf : parse m Factor (ts ++ rest) = Some (a, rest)).
  { apply (Hts rest m 1 (a, rest)); [assumption | lia | reflexivity]. }
  destruct Hop as [[-> ->] | [-> ->]]; now rewrite Hf.
Qed.

Lemma reads_pow ta a tb b :
  reads 4 ta a -> reads 2 tb b ->
  reads 3 (ta ++ DOUBLESTAR :: tb) (BinOp a Pow b).
Proof.
  intros Ha Hb rest m k r Hstop Hlia Hcont.
  unfold reads in Ha, Hb. cbn [nt_of] in Ha, Hb.
  simpl in Hcont. destruct k; [discriminate |]. injection Hcont as <-.
  rewrite length_app in Hlia. simpl in Hlia.
  destruct m as [| m]; [lia |].
  cbn [nt_of parse parse_step]. rewrite <- app_assoc.
  rewrite (Ha ((DOUBLESTAR :: tb) ++ rest) m 1
             (a, (DOUBLESTAR :: tb) ++ rest));
    [| reflexivity | lia | reflexivity].
  cbn [app].
  rewrite (Hb rest m 1 (b, rest)); [reflexivity | | lia | reflexivity].
  exact Hstop.
Qed.

Lemma reads_term op o ta a tb b :
  (op = STAR /\ o = Mult) \/ (op = DOUBLESLASH /\ o = FloorDiv) ->
  reads 1 ta a -> reads 2 tb b ->
  reads 1 (ta ++ op :: tb) (BinOp a o b).
Proof.
  intros Hop Ha Hb rest m k r Hstop Hlia Hcont.
  pose proof (continue_pos _ _ _ _ _ Hcont) as Hk.
  simpl in Hcont. rewrite length_app in Hlia. simpl in Hlia.
  rewrite <- app_assoc.
  apply (Ha ((op :: tb) ++ rest) m (S (5 + 6 * length tb + k)) r).
  - now destruct Hop as [[-> _] | [-> _]].
  - lia.
  - cbn [continue parse parse_step app].
    assert (Hf : parse (5 + 6 * length tb + k) Factor (tb ++ rest)
                 = Some (b, rest)).
    { apply (Hb rest _ 1 (b, rest)); [| lia | reflexivity].
      eapply stops_weaken; [| exact Hstop]. lia. }
    destruct Hop as [[-> ->] | [-> ->]]; rewrite Hf;
      (eapply parse_mono; [| exact Hcont]; lia).
Qed.

Lemma reads_sum op o ta a tb b :
  (op = PLUS /\ o = Add) \/ (op = MINUS /\ o = Sub) ->
  reads 0 ta a -> reads 1 tb b ->
  reads 0 (ta ++ op :: tb) (BinOp a o b).
Proof.
  intros Hop Ha Hb rest m k r Hstop Hlia Hcont.
  pose proof (continue_pos _ _ _ _ _ Hcont) as Hk.
  simpl in Hcont. rewrite length_app in Hlia. simpl in Hlia.
  rewrite <- app_assoc.
  apply (Ha ((op :: tb) ++ rest) m (S (5 + 6 * length tb + k)) r).
  - now destruct Hop as [[-> _] | [-> _]].
  - lia.
  - cbn [continue parse parse_step app].
    assert (Hf : parse (5 + 6 * length tb + k) Term (tb ++ rest)
                 = Some (b, rest)).
    { apply (Hb rest _ 1 (b, rest)); [| lia |].
      - eapply stops_weaken; [| exact Hstop]. lia.
      - now apply term_rest_stop. }
    destruct Hop as [[-> ->] | [-> ->]]; rewrite Hf;
      (eapply parse_mono; [| exact Hcont]; lia).
Qed.

Lemma toks_unfold (lvl : nat) (e : aexpr) :
  toks lvl e
  = if (level e <? lvl)%nat then LPAR :: toks 0 e ++ [RPAR] else toks 0 e.
Proof. destruct e; reflexivity. Qed.

Lemma toks_opens (lvl : nat) (e : aexpr) :
  exists t ts, toks lvl e = t :: ts /\ opens t = true.
Proof.
  destruct (toks_wellformed e lvl) as [_ _ (t & Hh & Ho) _].
  destruct (toks lvl e) as [| t' ts]; [discriminate Hh |].
  injection Hh as ->. eauto.
Qed.

Lemma toks_nonempty (lvl : nat) (e : aexpr) : toks lvl e <> [].
Proof. destruct (toks_opens lvl e) as (t & ts & -> & _). discriminate. Qed.

Lemma tight_toks_primary (e : aexpr) : tight (toks 4 e) = true.
Proof. destruct e; reflexivity. Qed.

Lemma tight_toks (e : aexpr) : 3 <= level e -> tight (toks 0 e) = true.
Proof.
  destruct e; cbn [level]; try lia; intros _; try reflexivity.
  cbn [toks level Nat.ltb Nat.leb].
  pose proof (tight_toks_primary e1) as Ht.
  destruct (toks 4 e1) as [| t ts]; [discriminate Ht | exact Ht].
Qed.

(** Once the expression reads at its own level it reads at every level:
    below as it is, above in parentheses. *)
Lemma reads_levels (e : aexpr) :
  reads (level e) (toks 0 e) (ast e) ->
  forall lvl, lvl <= 4 -> reads lvl (toks lvl e) (ast e).
Proof.
  intros Hbase lvl Hlvl.
  assert (Hl4 : level e <= 4) by (destruct e; simpl; lia).
  assert (H0 : reads 0 (toks 0 e) (ast e)).
  { apply (reads_down 0 (level e)); [lia | assumption | apply toks_nonempty | |
      assumption].
    intros Hc. apply tight_toks. lia. }
  rewrite toks_unfold. destruct (Nat.ltb_spec (level e) lvl) as [Hlt | Hge].
  - apply (reads_down lvl 4); [assumption | lia | discriminate | reflexivity |].
    apply reads_paren; [assumption | apply toks_opens].
  - apply (reads_down lvl (level e));
      [assumption | assumption | apply toks_nonempty | | assumption].
    intros Hc. apply tight_toks. lia.
Qed.

Lemma reads_toks (e : aexpr) :
  forall lvl, lvl <= 4 -> reads lvl (toks lvl e) (ast e).
Proof.
  induction e; apply reads_levels; cbn [level toks ast Nat.ltb Nat.leb].
  - apply reads_number.
  - apply reads_paren; [apply IHe; lia | apply toks_opens].
  - apply reads_sign; [tauto | apply IHe; lia].
  - apply reads_sign; [tauto | apply IHe; lia].
  - apply reads_pow; [apply IHe1 | apply IHe2]; lia.
  - apply reads_term; [tauto | apply IHe1 | apply IHe2]; lia.
  - apply reads_term; [tauto | apply IHe1 | apply IHe2]; lia.
  - apply reads_sum; [tauto | apply IHe1 | apply IHe2]; lia.
  - apply reads_sum; [tauto | apply IHe1 | apply IHe2]; lia.
Qed.

(** Python reads the text of an expression, in any spacing, as its tree:
    operators group by precedence and to the left, [**] to the right. *)
Lemma parse_expression_show (e : aexpr) (gaps : list nat) :
  parse_expression (show gaps e) = Some (ast e).
Proof.
  unfold parse_expression. rewrite tokenize_show.
  pose proof (reads_toks e 0 ltac:(lia) [] (parse_fuel (toks 0 e)) 1
                (ast e, [])) as Hp.
  rewrite app_nil_r in Hp. cbn [nt_of] in Hp.
  rewrite Hp; [reflexivity | reflexivity | unfold parse_fuel; lia |
               reflexivity].
Qed.



(** A division by zero, whatever the runtime. *)
Lemma execute_one_over_zero `{Runtime} :
  CalculatorTool.execute (Json.JStr "1/0")
  = Ok ("Error executing calculation: "
        +:+ error_text (division_by_zero Div 1)).
Proof. reflexivity. Qed.



(** * Further properties of the program *)

(** ** The construction of the agent and the memory *)

Lemma foldl_snoc {A B} (f : A -> B -> A) (a : A) (l : list B) (b : B) :
  foldl f a (l ++ [b]) = f (foldl f a l) b.
Proof. revert a. induction l as [| x l IH]; intros a; simpl; auto. Qed.

Lemma last_filter_snoc {A} (p : A -> bool) (l : list A) (a : A) :
  last (List.filter p (l ++ [a]))
  = if p a then Some a else last (List.filter p l).
Proof.
  rewrite List.filter_app. simpl. destruct (p a).
  - apply last_snoc.
  - now rewrite app_nil_r.
Qed.

Lemma new_lookup (llm : LLMProvider.t) (tools : list Tool.t) (name : string) :
  Agent.tools (Agent.new llm tools) !! name
  = last (List.filter (fun tool => String.eqb (Tool.name tool) name) tools).
Proof.
  unfold Agent.new. cbn [Agent.tools].
  induction tools as [| tool tools IH] using rev_ind.
  - apply lookup_empty.
  - rewrite foldl_snoc, last_filter_snoc.
    destruct (String.eqb_spec (Tool.name tool) name) as [<- | Hne].
    + apply lookup_insert_eq.
    + rewrite lookup_insert_ne by assumption. exact IH.
Qed.


(** X1. [Agent(llm, tools)] registers each tool under its name; of several
    tools with one name the last of the list is the one registered, and a
    name that no tool has is not registered.  The memory of the new agent is
    empty. *)
Theorem init_last_tool_wins (llm : LLMProvider.t) (tools : list Tool.t)
    (name : string) :
  Agent.tools (Agent.new llm tools) !! name
  = last (List.filter (fun tool => String.eqb (Tool.name tool) name) tools)
  /\ Memory.get_history (Agent.memory (Agent.new llm tools)) = []
  /\ Agent.llm (Agent.new llm tools) = llm.
Proof. split; [apply new_lookup | split; reflexivity]. Qed.

(** X2. The history is the messages added, in the order of the calls:
    after the messages [added] are added one by one, [get_history] returns what
    it returned before followed by [added]; from a new [Memory], exactly
    [added]. *)
Theorem history_is_messages_added (memory : Memory.t)
    (added : list Message.t) :
  Memory.get_history (foldl Memory.add_message memory added)
  = Memory.get_history memory ++ added
  /\ Memory.get_history (foldl Memory.add_message Memory.new added) = added.
Proof.
  assert (Hall : forall memory,
             Memory.get_history (foldl Memory.add_message memory added)
             = Memory.get_history memory ++ added).
  { clear memory. induction added as [| m added IH]; intros memory; simpl.
    - now rewrite app_nil_r.
    - rewrite IH. unfold Memory.add_message, Memory.get_history. simpl.
      now rewrite <- app_assoc. }
  split; [apply Hall | now rewrite Hall].
Qed.

(** ** One call of [run] *)



(** X4. The system prompt is set by [__init__] and never read: with any
    other prompt [run] returns or raises the same, records the same messages
    and prints the same; the model is never given the prompt. *)
Theorem run_ignores_system_prompt `{Runtime}
    (agent : Agent.t) (out : list Agent.output)
    (user_query prompt : string) :
  let other :=
    Agent.mk (Agent.llm agent) (Agent.tools agent) (Agent.memory agent)
      prompt in
  let r := Agent.run user_query (Agent.st agent out) in
  let r' := Agent.run user_query (Agent.st other out) in
  fst r' = fst r
  /\ Agent.memory (Agent.self (snd r')) = Agent.memory (Agent.self (snd r))
  /\ Agent.stdout (snd r') = Agent.stdout (snd r)
  /\ Agent.system_prompt (Agent.self (snd r')) = prompt.
Proof.
  destruct agent as [p tools [messages] sp]. unfold_run.
  unfold Agent.get, Agent.named_tool, Agent.keywords.
  repeat
    match goal with
    | |- context [match ?x with _ => _ end] =>
        match type of x with
        | result _ => destruct x
        | option _ => destruct x
        | bool => destruct x
        | Json.value => destruct x
        | list _ => destruct x
        end; simpl
    end;
    auto.
Qed.

(** The lookup of a tool by a name that is not empty. *)
Lemma named_tool_some `{Runtime} (tools : gmap string Tool.t)
    (tool_name : string) (tool : Tool.t) :
  tool_name <> "" ->
  tools !! tool_name = Some tool ->
  Agent.named_tool tools (Json.JStr tool_name) = Ok (Some tool).
Proof.
  intros Hne Ht. unfold Agent.named_tool.
  apply String.eqb_neq in Hne. now rewrite Hne, Ht.
Qed.

Section ToolStep.
Context `{Runtime}.
Variables (agent : Agent.t) (out : list Agent.output).
Variables (user_query response_text tool_name : string).
Variables (d kwargs : Json.dict) (tool : Tool.t).

Hypothesis reply :
  LLMProvider.generate (Agent.llm agent)
    (Memory.get_history (asked agent user_query)) = Ok response_text.
Hypothesis decoded : Json.decode response_text = Some (Json.JDict d).
Hypothesis named : Json.get d "tool" Json.JNull = Json.JStr tool_name.
Hypothesis not_empty : tool_name <> "".
Hypothesis registered : Agent.tools agent !! tool_name = Some tool.
Hypothesis input : Json.get d "tool_input" (Json.JDict []) = Json.JDict kwargs.

(** What [run] has printed when it calls the tool. *)
Definition printed_before_call : list Agent.output :=
  out ++ [Agent.User user_query;
          Agent.AgentThought (Json.get d "thought" Json.JNull);
          Agent.AgentAction (Json.JStr tool_name) (Json.JDict kwargs)].

Lemma run_tool_step :
  Agent.run user_query (Agent.st agent out)
  = match Tool.execute tool kwargs with
    | Raise e =>
        if issubclass (exn_cls e) JSONDecodeError then
          (Ok tt,
           Agent.st
             (with_memory agent
                (Memory.add_message (asked agent user_query)
                   (Message.new "assistant" response_text ∅)))
             (printed_before_call ++ [Agent.AgentResponse response_text]))
        else
          (Raise e,
           Agent.st (with_memory agent (asked agent user_query))
             printed_before_call)
    | Ok tool_result =>
        let memory2 :=
          Memory.add_message (asked agent user_query)
            (Message.new "tool" tool_result
               {["tool" := Json.JStr tool_name]}) in
        let out3 := printed_before_call ++ [Agent.ToolOutput tool_result] in
        match LLMProvider.generate (Agent.llm agent)
                (Memory.get_history memory2) with
        | Raise e =>
            if issubclass (exn_cls e) JSONDecodeError then
              (Ok tt,
               Agent.st
                 (with_memory agent
                    (Memory.add_message memory2
                       (Message.new "assistant" response_text ∅)))
                 (out3 ++ [Agent.AgentResponse response_text]))
            else (Raise e, Agent.st (with_memory agent memory2) out3)
        | Ok final_response =>
            (Ok tt,
             Agent.st
               (with_memory agent
                  (Memory.add_message memory2
                     (Message.new "assistant" final_response ∅)))
               (out3 ++ [Agent.AgentResponse final_response]))
        end
    end.
Proof.
  rewrite (run_tool agent out user_query response_text d tool reply decoded).
  - rewrite named, input. reflexivity.
  - rewrite named. now apply named_tool_some.
Qed.

End ToolStep.









(** *** The calculator in the loop *)





(** *** Sessions of the scripted agent *)


(** The block under [if __name__ == "__main__"]: the agent and the console
    when the script ends. *)
Definition main `{Runtime} : result unit * Agent.state :=
  let llm := MockLLMProvider.new in
  let calc_tool := CalculatorTool.new in
  let agent := Agent.new llm [calc_tool] in
  (Agent.run "Hello, who are you?";;
   Agent.run "Please calculate 25 * 4 for me.") (Agent.st agent []).

Definition introduction : string :=
  "I am a simple agent. I can help you with calculations.".

Definition result_sentence : string :=
  "The result of the calculation is 100".

(** What one query adds to the memory of the scripted agent. *)
Definition turn (user_query : string) : list Message.t :=
  user_message user_query ::
  if contains (lower user_query) "calculate" then
    [Message.new "tool" "100" {["tool" := Json.JStr "calculator"]};
     Message.new "assistant" result_sentence ∅]
  else [Message.new "assistant" introduction ∅].

(** What it prints for one query. *)
Definition transcript (user_query : string) : list Agent.output :=
  Agent.User user_query ::
  if contains (lower user_query) "calculate" then
    [Agent.AgentThought
       (Json.JStr
          "The user wants to calculate something. I should use the calculator tool.");
     Agent.AgentAction (Json.JStr "calculator")
       (Json.JDict [("expression", Json.JStr "25 * 4")]);
     Agent.ToolOutput "100";
     Agent.AgentResponse result_sentence]
  else [Agent.AgentResponse introduction].

Lemma decode_decision_text :
  Json.decode decision_text = Some MockLLMProvider.decision.
Proof. vm_compute. reflexivity. Qed.

Lemma decode_introduction : Json.decode introduction = None.
Proof. vm_compute. reflexivity. Qed.

Lemma dumps_decision :
  Json.dumps MockLLMProvider.decision = decision_text.
Proof. vm_compute. reflexivity. Qed.

Lemma mock_first_reply `{Runtime} (history : list Message.t)
    (user_query : string) :
  MockLLMProvider.generate (history ++ [user_message user_query])
  = Ok (if contains (lower user_query) "calculate" then decision_text
        else introduction).
Proof.
  unfold MockLLMProvider.generate. rewrite last_snoc.
  unfold user_message. cbn [Message.role Message.content].
  change (String.eqb "user" "user") with true. cbv iota.
  rewrite dumps_decision. now destruct (contains _ _).
Qed.

Lemma mock_final_reply `{Runtime} (history : list Message.t)
    (tool_result : string) (metadata : gmap string Json.value) :
  MockLLMProvider.generate
    (history ++ [Message.new "tool" tool_result metadata])
  = Ok ("The result of the calculation is " +:+ tool_result).
Proof.
  unfold MockLLMProvider.generate. rewrite last_snoc. reflexivity.
Qed.

Lemma calculate_25_times_4 `{Runtime} :
  Tool.execute CalculatorTool.new [("expression", Json.JStr "25 * 4")]
  = Ok "100".
Proof. reflexivity. Qed.

Lemma mock_turn `{Runtime} (memory : Memory.t) (out : list Agent.output)
    (user_query : string) :
  Agent.run user_query
    (Agent.st (calculator_agent MockLLMProvider.new memory) out)
  = (Ok tt,
     Agent.st
       (calculator_agent MockLLMProvider.new
          (Memory.mk (Memory.get_history memory ++ turn user_query)))
       (out ++ transcript user_query)).
Proof.
  pose proof (mock_first_reply (Memory.get_history memory) user_query)
    as Hreply.
  unfold turn, transcript.
  destruct (contains (lower user_query) "calculate") eqn:Hc.
  - rewrite (run_tool_step (calculator_agent MockLLMProvider.new memory) out
               user_query decision_text "calculator"
               [("thought",
                 Json.JStr
                   "The user wants to calculate something. I should use the calculator tool.");
                ("tool", Json.JStr "calculator");
                ("tool_input",
                 Json.JDict [("expression", Json.JStr "25 * 4")])]
               [("expression", Json.JStr "25 * 4")] CalculatorTool.new
               Hreply decode_decision_text eq_refl ltac:(discriminate)
               (calculator_lookup _ _ _) eq_refl).
    rewrite calculate_25_times_4. cbv zeta.
    change (Agent.llm (calculator_agent MockLLMProvider.new memory))
      with MockLLMProvider.new.
    change (LLMProvider.generate MockLLMProvider.new)
      with MockLLMProvider.generate.
    unfold asked, Memory.add_message, Memory.get_history.
    cbn [Memory.messages].
    rewrite mock_final_reply.
    unfold printed_before_call, calculator_agent, with_memory.
    cbn [Agent.llm Agent.tools Agent.memory Agent.system_prompt Agent.new
         Memory.messages].
    rewrite <- !app_assoc. reflexivity.
  - rewrite (run_not_json (calculator_agent MockLLMProvider.new memory) out
               user_query introduction Hreply decode_introduction).
    unfold calculator_agent, with_memory, asked, Memory.add_message,
      Memory.get_history.
    cbn [Agent.llm Agent.tools Agent.memory Agent.system_prompt Agent.new
         Memory.messages].
    rewrite <- !app_assoc. reflexivity.
Qed.


(** X9. The script under [if __name__ == "__main__"] ends without an
    exception, with five messages in the memory of the agent (the greeting
    and the introduction, the request, the tool message [100] and the result
    sentence) and seven calls of [print]. *)
Theorem main_session `{Runtime} :
  main
  = (Ok tt,
     Agent.st
       (calculator_agent MockLLMProvider.new
          (Memory.mk
             [Message.new "user" "Hello, who are you?" ∅;
              Message.new "assistant" introduction ∅;
              Message.new "user" "Please calculate 25 * 4 for me." ∅;
              Message.new "tool" "100" {["tool" := Json.JStr "calculator"]};
              Message.new "assistant" result_sentence ∅]))
       [Agent.User "Hello, who are you?";
        Agent.AgentResponse introduction;
        Agent.User "Please calculate 25 * 4 for me.";
        Agent.AgentThought
          (Json.JStr
             "The user wants to calculate something. I should use the calculator tool.");
        Agent.AgentAction (Json.JStr "calculator")
          (Json.JDict [("expression", Json.JStr "25 * 4")]);
        Agent.ToolOutput "100";
        Agent.AgentResponse result_sentence]).
Proof.
  unfold main. cbv zeta. unfold mbind, Agent.M_bind.
  change (Agent.new MockLLMProvider.new [CalculatorTool.new])
    with (calculator_agent MockLLMProvider.new Memory.new).
  rewrite !mock_turn. reflexivity.
Qed.



(** ** More on the calculator *)

(** [execute] on the text of an expression is the evaluation of its
    tree. *)
Lemma execute_show `{Runtime} (e : aexpr) (gaps : list nat) :
  CalculatorTool.execute (Json.JStr (show gaps e))
  = match eval_expr (ast e) with
    | Ok v => Ok (str v)
    | Raise x => Ok ("Error executing calculation: " +:+ exn_str x)
    end.
Proof.
  unfold CalculatorTool.execute, CalculatorTool.execute_with,
    CalculatorTool.body.
  unfold show at 1. rewrite layout_allowed
    by (now destruct (toks_wellformed e 0)).
  cbn [negb]. unfold Arith.eval. rewrite parse_expression_show.
  destruct (eval_expr (ast e)) as [v | x] eqn:He; [reflexivity |].
  unfold rbind, try_except. now rewrite (eval_expr_raises _ _ He).
Qed.



(** X12. A floor division whose divisor evaluates to zero is reported in
    the text that [execute] returns, with the message of the
    [ZeroDivisionError], and is not raised. *)
Theorem execute_floor_division_by_zero `{Runtime}
    (a b : aexpr) (gaps : list nat) (x : Z) :
  denote a = Some x ->
  denote b = Some 0%Z ->
  CalculatorTool.execute (Json.JStr (show gaps (AFloorDiv a b)))
  = Ok ("Error executing calculation: "
        +:+ error_text (division_by_zero FloorDiv x)).
Proof.
  intros Ha Hb. rewrite execute_show. cbn [ast eval_expr].
  rewrite (eval_ast a x Ha), (eval_ast b 0 Hb). reflexivity.
Qed.

Lemma execute_floor_division_by_zero_witness :
  CalculatorTool.execute (H := Symbolic.runtime) (Json.JStr "2**3 // (4 - 2*2)")
  = Ok "Error executing calculation: division by zero".
Proof.
  apply (execute_floor_division_by_zero (H := Symbolic.runtime)
           (APow (ALit 2) (ALit 3))
           (ASub (ALit 4) (AMul (ALit 2) (ALit 2)))
           [0; 0; 0; 1; 1; 0; 1; 1; 1] 8);
    reflexivity.
Defined.

(** The text of an integer is the text of a literal, under a minus sign
    when it is negative. *)
Definition numeral (z : Z) : aexpr :=
  match z with
  | Zneg p => ANeg (ALit (Npos p))
  | _ => ALit (Z.to_N z)
  end.

Lemma show_literal (n : N) :
  show [] (ALit n) = NilEmpty.string_of_uint (N.to_uint n).
Proof. unfold show. cbn. apply append_nil_r. Qed.

Lemma string_of_uint_nonnil (d : Decimal.uint) :
  d <> Decimal.Nil ->
  NilZero.string_of_uint d = NilEmpty.string_of_uint d.
Proof. destruct d; [congruence | reflexivity ..]. Qed.

Lemma pos_to_uint_nonnil (p : positive) : Pos.to_uint p <> Decimal.Nil.
Proof.
  destruct (to_uint_canonical (Npos p)) as [Hz | [Hn _]].
  - cbn in Hz. rewrite Hz. discriminate.
  - exact Hn.
Qed.

Lemma str_int_show (z : Z) : str_int z = show [] (numeral z).
Proof.
  destruct z as [| p | p]; unfold str_int, numeral.
  - reflexivity.
  - rewrite show_literal. cbn.
    apply string_of_uint_nonnil, pos_to_uint_nonnil.
  - unfold show. cbn. rewrite append_nil_r.
    f_equal. apply string_of_uint_nonnil, pos_to_uint_nonnil.
Qed.

Lemma denote_numeral (z : Z) : denote (numeral z) = Some z.
Proof. destruct z; reflexivity. Qed.

(** X13. [execute] reads back the integers it writes: given the decimal
    text of any integer, negative ones included, it returns that text. *)
Theorem execute_reads_its_integers `{Runtime} (z : Z) :
  CalculatorTool.execute (Json.JStr (str_int z)) = Ok (str_int z).
Proof.
  rewrite str_int_show at 1. rewrite execute_show.
  now rewrite (eval_ast _ _ (denote_numeral z)).
Qed.

Lemma all_chars_spaces (n : nat) :
  all_chars (fun c => char_in c CalculatorTool.allowed_chars) (spaces n)
  = true.
Proof. induction n as [| n IH]; [reflexivity | exact IH]. Qed.

(** X14. The empty expression and an expression of spaces pass the
    allow-list ([all] of nothing is true) and are no expression for [eval]:
    [execute] returns the text of a syntax error. *)
Theorem execute_blank_expression `{Runtime} (n : nat) :
  CalculatorTool.execute (Json.JStr (spaces n))
  = Ok ("Error executing calculation: "
        +:+ error_text (invalid_syntax (spaces n))).
Proof.
  unfold CalculatorTool.execute, CalculatorTool.execute_with,
    CalculatorTool.body.
  rewrite all_chars_spaces. cbn [negb].
  unfold Arith.eval, parse_expression, tokenize.
  rewrite <- (append_nil_r (spaces n)) at 1.
  rewrite tokens_from_spaces. reflexivity.
Qed.

Lemma digits_allowed (s : string) :
  all_chars is_digit s = true ->
  all_chars (fun c => char_in c CalculatorTool.allowed_chars) s = true.
Proof.
  induction s as [| c s IH]; cbn [all_chars]; [reflexivity |].
  intros Hd. apply andb_prop in Hd as [Hc Hd].
  rewrite (IH Hd), andb_true_r.
  apply char_in_allowed_chars. left. exact Hc.
Qed.

(** X15. A number written with a leading zero and more digits is a syntax
    error for [eval] unless all its digits are zeros, in which case it is
    zero: [execute] returns the text of the error for [007] and [0] for
    [000]. *)
Theorem execute_leading_zeros `{Runtime} (digits : string) :
  all_chars is_digit digits = true ->
  digits <> EmptyString ->
  CalculatorTool.execute (Json.JStr (String "0" digits))
  = if all_chars (Ascii.eqb "0") digits then Ok "0"
    else Ok ("Error executing calculation: "
             +:+ error_text (invalid_syntax (String "0" digits))).
Proof.
  intros Hd Hne.
  unfold CalculatorTool.execute, CalculatorTool.execute_with,
    CalculatorTool.body.
  assert (Hd0 : all_chars is_digit (String "0" digits) = true)
    by (cbn [all_chars]; rewrite Hd; reflexivity).
  rewrite (digits_allowed _ Hd0).
  cbn [negb]. unfold Arith.eval, parse_expression, tokenize.
  assert (Ht : tokens_from Start (String "0" digits)
               = if all_chars (Ascii.eqb "0") digits
                 then Some [NUMBER 0] else None).
  { change (tokens_from Start (String "0" digits))
      with (match tokens_from (InInt "0") digits with
            | Some ts' => Some ([] ++ ts')
            | None => None
            end).
    rewrite <- (append_nil_r digits) at 1.
    rewrite (tokens_from_digits digits "0" EmptyString Hd).
    cbn [tokens_from flush]. change ("0" +:+ digits) with (String "0" digits).
    destruct digits as [| c ds]; [congruence |].
    cbn [int_token].
    destruct (all_chars (Ascii.eqb "0") (String c ds)); reflexivity. }
  rewrite Ht. destruct (all_chars (Ascii.eqb "0") digits); reflexivity.
Qed.

Lemma execute_leading_zeros_witness :
  CalculatorTool.execute (H := Symbolic.runtime) (Json.JStr "007")
  = Ok "Error executing calculation: invalid syntax"
  /\ CalculatorTool.execute (H := Symbolic.runtime) (Json.JStr "000")
     = Ok "0".
Proof.
  split.
  - apply (execute_leading_zeros (H := Symbolic.runtime) "07");
      [reflexivity | discriminate].
  - apply (execute_leading_zeros (H := Symbolic.runtime) "00");
      [reflexivity | discriminate].
Defined.

(** X16. The annotation [expression: str] is not enforced.  Given a value
    that is not a string (a number, a boolean, [None], a list, a dict)
    [execute] does not raise and computes nothing: it returns a text that
    starts with [Error]. *)
Theorem execute_refuses_other_values `{Runtime} (expression : Json.value) :
  (forall s, expression <> Json.JStr s) ->
  exists text,
    CalculatorTool.execute expression = Ok text
    /\ startswith text "Error" = true.
Proof.
  intros Hns.
  unfold CalculatorTool.execute, CalculatorTool.execute_with.
  destruct (CalculatorTool.body Arith.eval expression) as [text | e] eqn:Hb.
  - exists text. split; [reflexivity |].
    destruct expression as [| b | z | f | s | items | items];
      try discriminate Hb; [now destruct (Hns s) | |];
      cbn [CalculatorTool.body] in Hb;
      destruct (CalculatorTool.all_allowed _) as [[|] |];
        try discriminate Hb; now injection Hb as <-.
  - apply body_raises in Hb; [| apply @eval_raises].
    unfold try_except. rewrite Hb. eexists. split; reflexivity.
Qed.

Lemma execute_refuses_other_values_witness :
  exists text,
    CalculatorTool.execute (H := Symbolic.runtime) (Json.JInt 4) = Ok text
    /\ startswith text "Error" = true.
Proof.
  apply (execute_refuses_other_values (H := Symbolic.runtime) (Json.JInt 4)).
  discriminate.
Defined.

(** *** Parentheses *)

Definition token_depth (t : token) : Z :=
  match t with
  | LPAR => 1
  | RPAR => -1
  | _ => 0
  end.

(** The parentheses that a list of tokens opens and does not close. *)
Fixpoint open_tokens (ts : list token) : Z :=
  match ts with
  | [] => 0
  | t :: ts' => token_depth t + open_tokens ts'
  end.

Definition char_depth (c : ascii) : Z :=
  if Ascii.eqb c "(" then 1 else if Ascii.eqb c ")" then -1 else 0.

(** The same for the characters of a text. *)
Fixpoint open_parens (s : string) : Z :=
  match s with
  | EmptyString => 0
  | String c s' => char_depth c + open_parens s'
  end.

Lemma open_tokens_app (a b : list token) :
  open_tokens (a ++ b) = (open_tokens a + open_tokens b)%Z.
Proof. induction a as [| t a IH]; cbn [open_tokens app]; lia. Qed.

Lemma int_token_depth (digits : string) (t : token) :
  int_token digits = Some t -> token_depth t = 0%Z.
Proof.
  unfold int_token. intros Ht.
  repeat case_match; simplify_eq; reflexivity.
Qed.

Lemma flush_depth (st : lex_state) (ts : list token) :
  flush st = Some ts -> open_tokens ts = 0%Z.
Proof.
  destruct st; cbn [flush]; try (intros [= <-]; reflexivity).
  destruct (int_token digits) as [t |] eqn:Ht; [| discriminate].
  intros [= <-]. cbn [open_tokens]. rewrite (int_token_depth _ _ Ht). lia.
Qed.

Lemma start_depth (c : ascii) (ts : list token) (st : lex_state) :
  start c = Some (ts, st) -> open_tokens ts = char_depth c.
Proof.
  destruct c as [[] [] [] [] [] [] [] []]; vm_compute;
    intros Hs; try discriminate Hs; injection Hs as <- <-; reflexivity.
Qed.

Lemma digit_depth (c : ascii) : is_digit c = true -> char_depth c = 0%Z.
Proof.
  destruct c as [[] [] [] [] [] [] [] []]; vm_compute;
    intros Hd; try discriminate Hd; reflexivity.
Qed.

Lemma flush_then_start_depth (st st' : lex_state) (c : ascii)
    (ts : list token) :
  flush_then_start st c = Some (ts, st') -> open_tokens ts = char_depth c.
Proof.
  unfold flush_then_start.
  destruct (flush st) as [ts0 |] eqn:Hf; [| discriminate].
  destruct (start c) as [[ts1 st1] |] eqn:Hs; [| discriminate].
  intros [= <- <-]. rewrite open_tokens_app.
  rewrite (flush_depth _ _ Hf), (start_depth _ _ _ Hs). lia.
Qed.

Lemma step_depth (st st' : lex_state) (c : ascii) (ts : list token) :
  step st c = Some (ts, st') -> open_tokens ts = char_depth c.
Proof.
  destruct st; cbn [step];
    try apply start_depth;
    repeat
      match goal with
      | |- context [if is_digit c then _ else _] =>
          destruct (is_digit c) eqn:?
      | |- context [if Ascii.eqb c ?x then _ else _] =>
          destruct (Ascii.eqb_spec c x)
      end;
    try apply flush_then_start_depth;
    intros [= <- <-]; subst; cbn [open_tokens token_depth];
    rewrite ?digit_depth by assumption; reflexivity.
Qed.

(** The tokenizer keeps every parenthesis. *)
Lemma tokens_from_depth (s : string) :
  forall st ts,
    tokens_from st s = Some ts -> open_tokens ts = open_parens s.
Proof.
  induction s as [| c s IH]; intros st ts; cbn [tokens_from open_parens].
  - apply flush_depth.
  - destruct (step st c) as [[ts1 st1] |] eqn:Hs; [| discriminate].
    destruct (tokens_from st1 s) as [ts2 |] eqn:Ht; [| discriminate].
    intros [= <-]. rewrite open_tokens_app.
    now rewrite (step_depth _ _ _ _ Hs), (IH _ _ Ht).
Qed.

(** What a rule of the grammar reads has its parentheses balanced. *)
Lemma parse_depth (n : nat) :
  forall nt ts e rest,
    parse n nt ts = Some (e, rest) -> open_tokens ts = open_tokens rest.
Proof.
  induction n as [| n IH]; [discriminate |].
  intros nt ts e rest Hp. cbn [parse] in Hp.
  destruct nt; cbn [parse_step] in Hp; split_rule Hp;
    try (injection Hp as <- <-);
    repeat
      match goal with
      | E : parse n _ _ = Some _ |- _ => apply IH in E
      end;
    cbn [open_tokens token_depth] in *; lia.
Qed.

(** X17. An expression over the allow-list whose parentheses do not
    balance (more opened than closed, or the reverse) is never evaluated to a
    value: [execute] returns the text of a syntax error. *)
Theorem execute_unbalanced_parentheses `{Runtime} (expression : string) :
  all_chars (fun c => char_in c CalculatorTool.allowed_chars) expression
  = true ->
  open_parens expression <> 0%Z ->
  CalculatorTool.execute (Json.JStr expression)
  = Ok ("Error executing calculation: "
        +:+ error_text (invalid_syntax expression)).
Proof.
  intros Hall Hopen.
  unfold CalculatorTool.execute, CalculatorTool.execute_with,
    CalculatorTool.body.
  rewrite Hall. cbn [negb].
  assert (Hnone : parse_expression expression = None).
  { unfold parse_expression, tokenize.
    destruct (tokens_from Start expression) as [ts |] eqn:Ht; [| reflexivity].
    destruct (parse (parse_fuel ts) Sum ts) as [[e [| t rest]] |] eqn:Hp;
      try reflexivity.
    apply parse_depth in Hp. apply tokens_from_depth in Ht.
    cbn [open_tokens] in Hp. congruence. }
  unfold Arith.eval. rewrite Hnone. reflexivity.
Qed.

Lemma execute_unbalanced_parentheses_witness :
  CalculatorTool.execute (H := Symbolic.runtime) (Json.JStr "(1 + 2) * (3")
  = Ok "Error executing calculation: invalid syntax".
Proof.
  apply (execute_unbalanced_parentheses (H := Symbolic.runtime)
           "(1 + 2) * (3");
    [reflexivity | discriminate].
Defined.

(** *** Operators without an operand *)

(** The tokens that can end an expression. *)
Definition ends_operand (t : token) : bool :=
  match t with
  | NUMBER _ | FLOAT _ | ELLIPSIS | RPAR => true
  | _ => false
  end.

(** [ts] is [rest] after one token or more, the last of which ends an
    operand. *)
Definition reads_operand (ts rest : list token) : Prop :=
  exists used t, ts = used ++ t :: rest /\ ends_operand t = true.

Lemma reads_one (t : token) (rest : list token) :
  ends_operand t = true -> reads_operand (t :: rest) rest.
Proof. intros Ht. now exists [], t. Qed.

Lemma reads_cons (x : token) (ts rest : list token) :
  reads_operand ts rest -> reads_operand (x :: ts) rest.
Proof. intros (used & t & -> & Ht). now exists (x :: used), t. Qed.

Lemma reads_skip (x : token) (a b c : list token) :
  reads_operand a (x :: b) -> reads_operand b c -> reads_operand a c.
Proof.
  intros (u & t & -> & _) (u' & t' & -> & Ht').
  exists (u ++ t :: x :: u'), t'. split; [| exact Ht'].
  now rewrite <- app_assoc.
Qed.

Lemma reads_trans (a b c : list token) :
  reads_operand a b -> reads_operand b c -> reads_operand a c.
Proof.
  intros (u & t & -> & _) (u' & t' & -> & Ht').
  exists (u ++ t :: u'), t'. split; [| exact Ht'].
  now rewrite <- app_assoc.
Qed.

Lemma reads_close (a b : list token) :
  reads_operand a (RPAR :: b) -> reads_operand a b.
Proof.
  intros (u & t & -> & _). exists (u ++ [t]), RPAR.
  split; [| reflexivity]. now rewrite <- app_assoc.
Qed.

(** What a rule of the grammar reads ends with an operand; the rules that
    continue an operand may read nothing. *)
Definition read_by (nt : nonterminal) (ts rest : list token) : Prop :=
  match nt with
  | SumRest _ | TermRest _ | PrimaryRest _ =>
      ts = rest \/ reads_operand ts rest
  | _ => reads_operand ts rest
  end.

Ltac reads_end :=
  solve [repeat first [assumption | apply reads_one; reflexivity
                      | apply reads_cons]].

Ltac reads_chain :=
  repeat
    match goal with
    | H1 : reads_operand ?a (_ :: ?b), H2 : reads_operand ?b ?c |- _ =>
        pose proof (reads_skip _ _ _ _ H1 H2); clear H1 H2
    | H1 : reads_operand ?a ?b, H2 : reads_operand ?b ?c |- _ =>
        pose proof (reads_trans _ _ _ H1 H2); clear H1 H2
    | H1 : reads_operand ?a (RPAR :: ?b) |- _ => apply reads_close in H1
    end.

Lemma parse_reads_operand (n : nat) :
  forall nt ts e rest,
    parse n nt ts = Some (e, rest) -> read_by nt ts rest.
Proof.
  induction n as [| n IH]; [discriminate |].
  intros nt ts e rest Hp. cbn [parse] in Hp.
  destruct nt; cbn [parse_step] in Hp; split_rule Hp;
    try (injection Hp as <- <-);
    repeat
      match goal with
      | E : parse n _ _ = Some _ |- _ => apply IH in E; cbn [read_by] in E
      end;
    repeat
      match goal with
      | E : _ \/ _ |- _ => destruct E as [E | E]; [subst |]
      end;
    cbn [read_by];
    first [ assumption | left; reflexivity
          | try right; first [reads_end | reads_chain; reads_end] ].
Qed.

(** The characters of the binary operators. *)
Definition operator_chars : list ascii := ["+"; "-"; "*"; "/"]%char.

Lemma tokens_from_blank (k : nat) :
  tokens_from Start (spaces k) = Some []
  /\ tokens_from Star1 (spaces k) = Some [STAR]
  /\ tokens_from Slash1 (spaces k) = Some [SLASH].
Proof.
  assert (Hstart : forall k, tokens_from Start (spaces k) = Some []).
  { clear k. induction k as [| k IH]; [reflexivity |].
    cbn [spaces tokens_from]. change (step Start " ") with (Some ([] : list token, Start)).
    cbv iota. now rewrite IH. }
  split; [apply Hstart |].
  destruct k as [| k]; [split; reflexivity |].
  cbn [spaces tokens_from].
  change (step Star1 " ") with (Some ([STAR], Start)).
  change (step Slash1 " ") with (Some ([SLASH], Start)).
  cbv iota. now rewrite Hstart.
Qed.

(** After the character of an operator the tokenizer has an operator as its
    last token, or holds the start of one. *)
Lemma step_operator (st st1 : lex_state) (c : ascii) (ts1 : list token) :
  In c operator_chars ->
  step st c = Some (ts1, st1) ->
  (st1 = Start /\ exists u t, ts1 = u ++ [t] /\ ends_operand t = false)
  \/ st1 = Star1 \/ st1 = Slash1.
Proof.
  intros Hc.
  repeat (destruct Hc as [<- | Hc]); [.. | destruct Hc];
    destruct st; cbn [step];
    repeat
      match goal with
      | |- context [is_digit ?c] =>
          let b := eval vm_compute in (is_digit c) in
          change (is_digit c) with b
      | |- context [Ascii.eqb ?a ?b] =>
          let r := eval vm_compute in (Ascii.eqb a b) in
          change (Ascii.eqb a b) with r
      end;
    cbv iota; unfold flush_then_start;
    repeat
      match goal with
      | |- context [start ?c] =>
          let r := eval vm_compute in (start c) in change (start c) with r
      end;
    cbn [flush];
    try (destruct (int_token digits) as [t0 |]; [| discriminate]);
    intros [= <- <-];
    first [ now (right; left) | now (right; right)
          | left; split; [reflexivity |];
            first [ now exists [], PLUS | now exists [], MINUS
                  | now exists [], DOUBLESTAR | now exists [], DOUBLESLASH
                  | eexists [_], _; split; reflexivity
                  | eexists [_; _], _; split; reflexivity ] ].
Qed.

Lemma tokens_end_operator (s : string) :
  forall st c k ts,
    In c operator_chars ->
    tokens_from st (s +:+ String c (spaces k)) = Some ts ->
    exists u t, ts = u ++ [t] /\ ends_operand t = false.
Proof.
  induction s as [| a s IH]; intros st c k ts Hc; cbn [String.append tokens_from].
  - destruct (step st c) as [[ts1 st1] |] eqn:Hs; [| discriminate].
    destruct (tokens_from_blank k) as (Hstart & Hstar & Hslash).
    destruct (step_operator _ _ _ _ Hc Hs)
      as [[-> (u & t & -> & Ht)] | [-> | ->]].
    + rewrite Hstart. intros [= <-]. exists u, t. now rewrite app_nil_r.
    + rewrite Hstar. intros [= <-]. now exists ts1, STAR.
    + rewrite Hslash. intros [= <-]. now exists ts1, SLASH.
  - destruct (step st a) as [[ts1 st1] |]; [| discriminate].
    destruct (tokens_from st1 (s +:+ String c (spaces k))) as [ts2 |] eqn:Ht;
      [| discriminate].
    intros [= <-]. destruct (IH _ _ _ _ Hc Ht) as (u & t & -> & Hop).
    exists (ts1 ++ u), t. now rewrite app_assoc.
Qed.

Lemma all_chars_append (p : ascii -> bool) (a b : string) :
  all_chars p (a +:+ b) = all_chars p a && all_chars p b.
Proof.
  induction a as [| c a IH]; cbn [String.append all_chars]; [reflexivity |].
  now rewrite IH, andb_assoc.
Qed.

Lemma operator_allowed (c : ascii) :
  In c operator_chars -> char_in c CalculatorTool.allowed_chars = true.
Proof.
  intros Hc. repeat (destruct Hc as [<- | Hc]); [reflexivity .. | destruct Hc].
Qed.

(** X18. An expression over the allow-list that ends with the character of
    an operator ([+ - * /], spaces apart) lacks an operand: whatever comes
    before, [execute] returns the text of a syntax error. *)
Theorem execute_dangling_operator `{Runtime}
    (s : string) (c : ascii) (k : nat) :
  all_chars (fun c => char_in c CalculatorTool.allowed_chars) s = true ->
  In c operator_chars ->
  let expression := s +:+ String c (spaces k) in
  CalculatorTool.execute (Json.JStr expression)
  = Ok ("Error executing calculation: "
        +:+ error_text (invalid_syntax expression)).
Proof.
  intros Hs Hc expression.
  unfold CalculatorTool.execute, CalculatorTool.execute_with,
    CalculatorTool.body.
  assert (Hall : all_chars (fun c => char_in c CalculatorTool.allowed_chars)
                   expression = true).
  { unfold expression. rewrite all_chars_append, Hs. cbn [all_chars andb].
    now rewrite (operator_allowed c Hc), all_chars_spaces. }
  rewrite Hall. cbn [negb].
  assert (Hnone : parse_expression expression = None).
  { unfold parse_expression, tokenize.
    destruct (tokens_from Start expression) as [ts |] eqn:Ht; [| reflexivity].
    destruct (parse (parse_fuel ts) Sum ts) as [[e [| t rest]] |] eqn:Hp;
      try reflexivity.
    apply parse_reads_operand in Hp as (u' & t' & Hts & Hend).
    apply tokens_end_operator in Ht as (u & t & -> & Hop); [| exact Hc].
    apply app_inj_tail in Hts as [_ ->]. congruence. }
  unfold Arith.eval. rewrite Hnone. reflexivity.
Qed.

Lemma execute_dangling_operator_witness :
  CalculatorTool.execute (H := Symbolic.runtime) (Json.JStr "2 * (3 + 4) -  ")
  = Ok "Error executing calculation: invalid syntax".
Proof.
  apply (execute_dangling_operator (H := Symbolic.runtime)
           "2 * (3 + 4) " "-" 2); [reflexivity | simpl; tauto].
Defined.

(** The tokens that can start an expression. *)
Definition begins_operand (t : token) : bool :=
  match t with
  | NUMBER _ | FLOAT _ | ELLIPSIS | LPAR | PLUS | MINUS => true
  | _ => false
  end.

Definition begun_by (nt : nonterminal) (ts : list token) : Prop :=
  match nt with
  | SumRest _ | TermRest _ | PrimaryRest _ => True
  | _ => exists t ts', ts = t :: ts' /\ begins_operand t = true
  end.

(** What a rule of the grammar reads starts with an operand or a sign. *)
Lemma parse_begins_operand (n : nat) :
  forall nt ts e rest,
    parse n nt ts = Some (e, rest) -> begun_by nt ts.
Proof.
  induction n as [| n IH]; [discriminate |].
  intros nt ts e rest Hp. cbn [parse] in Hp.
  destruct nt; cbn [parse_step] in Hp; cbn [begun_by]; try exact I;
    split_rule Hp;
    try (eexists _, _; split; reflexivity);
    repeat
      match goal with
      | E : parse n _ _ = Some _ |- _ => apply IH in E; cbn [begun_by] in E
      end;
    repeat
      match goal with
      | E : exists t ts', _ |- _ => exact E
      end.
Qed.

(** The characters that start no expression. *)
Definition closing_chars : list ascii := ["*"; "/"; ")"]%char.

Lemma tokens_begin_operator (c : ascii) (s : string) (ts : list token) :
  In c closing_chars ->
  tokens_from Start (String c s) = Some ts ->
  exists t ts', ts = t :: ts' /\ begins_operand t = false.
Proof.
  intros Hc.
  repeat (destruct Hc as [<- | Hc]); [.. | destruct Hc]; cbn [tokens_from].
  - change (step Start "*") with (Some ([] : list token, Star1)). cbv iota.
    destruct s as [| a s]; cbn [tokens_from];
      [intros [= <-]; now exists STAR, [] |].
    cbn [step]. destruct (Ascii.eqb a "*").
    + destruct (tokens_from Start s); [| discriminate].
      intros [= <-]. now eexists DOUBLESTAR, _.
    + unfold flush_then_start. cbn [flush].
      destruct (start a) as [[ts1 st1] |]; [| discriminate].
      destruct (tokens_from st1 s); [| discriminate].
      intros [= <-]. now eexists STAR, _.
  - change (step Start "/") with (Some ([] : list token, Slash1)). cbv iota.
    destruct s as [| a s]; cbn [tokens_from];
      [intros [= <-]; now exists SLASH, [] |].
    cbn [step]. destruct (Ascii.eqb a "/").
    + destruct (tokens_from Start s); [| discriminate].
      intros [= <-]. now eexists DOUBLESLASH, _.
    + unfold flush_then_start. cbn [flush].
      destruct (start a) as [[ts1 st1] |]; [| discriminate].
      destruct (tokens_from st1 s); [| discriminate].
      intros [= <-]. now eexists SLASH, _.
  - change (step Start ")") with (Some ([RPAR], Start)). cbv iota.
    destruct (tokens_from Start s); [| discriminate].
    intros [= <-]. now eexists RPAR, _.
Qed.

Lemma closing_allowed (c : ascii) :
  In c closing_chars -> char_in c CalculatorTool.allowed_chars = true.
Proof.
  intros Hc. repeat (destruct Hc as [<- | Hc]); [reflexivity .. | destruct Hc].
Qed.

(** X19. An expression over the allow-list that starts, spaces apart, with
    [*], [/] or a closing parenthesis is no expression: whatever follows,
    [execute] returns the text of a syntax error. *)
Theorem execute_leading_operator `{Runtime}
    (k : nat) (c : ascii) (s : string) :
  In c closing_chars ->
  all_chars (fun c => char_in c CalculatorTool.allowed_chars) s = true ->
  let expression := spaces k +:+ String c s in
  CalculatorTool.execute (Json.JStr expression)
  = Ok ("Error executing calculation: "
        +:+ error_text (invalid_syntax expression)).
Proof.
  intros Hc Hs expression.
  unfold CalculatorTool.execute, CalculatorTool.execute_with,
    CalculatorTool.body.
  assert (Hall : all_chars (fun c => char_in c CalculatorTool.allowed_chars)
                   expression = true).
  { unfold expression. rewrite all_chars_append, all_chars_spaces.
    cbn [all_chars andb]. now rewrite (closing_allowed c Hc), Hs. }
  rewrite Hall. cbn [negb].
  assert (Hnone : parse_expression expression = None).
  { unfold parse_expression, tokenize, expression.
    rewrite tokens_from_spaces.
    destruct (tokens_from Start (String c s)) as [ts |] eqn:Ht;
      [| reflexivity].
    destruct (parse (parse_fuel ts) Sum ts) as [[e [| t rest]] |] eqn:Hp;
      try reflexivity.
    apply parse_begins_operand in Hp as (t' & ts' & -> & Hbegin).
    apply tokens_begin_operator in Ht as (t & ts0 & [= -> _] & Hop);
      [| exact Hc].
    congruence. }
  unfold Arith.eval. rewrite Hnone. reflexivity.
Qed.

Lemma execute_leading_operator_witness :
  CalculatorTool.execute (H := Symbolic.runtime) (Json.JStr " * 4 + 1")
  = Ok "Error executing calculation: invalid syntax".
Proof.
  apply (execute_leading_operator (H := Symbolic.runtime) 1 "*" " 4 + 1");
    [simpl; tauto | reflexivity].
Defined.

(** *** The schema of the calculator *)

(** The names a schema requires, and the names of its properties. *)
Definition required (schema : Json.value) : list string :=
  match schema with
  | Json.JDict d =>
      match Json.lookup "required" d with
      | Some (Json.JList names) =>
          flat_map (fun v => match v with Json.JStr s => [s] | _ => [] end)
            names
      | _ => []
      end
  | _ => []
  end.

Definition properties (schema : Json.value) : list string :=
  match schema with
  | Json.JDict d =>
      match Json.lookup "properties" d with
      | Some (Json.JDict ps) => List.map fst ps
      | _ => []
      end
  | _ => []
  end.

(** X20. [get_schema] and [execute] agree on the arguments: the schema
    lists [expression] as its only property and as required, and the call of
    [execute] with keyword arguments returns exactly when their names are
    that list; with any other names it raises a [TypeError] before the body
    runs. *)
Theorem execute_takes_what_schema_requires `{Runtime} (kwargs : Json.dict) :
  let schema := Tool.get_schema CalculatorTool.new in
  properties schema = required schema
  /\ ((exists text, Tool.execute CalculatorTool.new kwargs = Ok text)
      <-> List.map fst kwargs = required schema)
  /\ (List.map fst kwargs <> required schema ->
      Tool.execute CalculatorTool.new kwargs = raise (bad_keywords kwargs)).
Proof.
  cbv zeta.
  change (required (Tool.get_schema CalculatorTool.new)) with ["expression"].
  change (Tool.execute CalculatorTool.new kwargs)
    with (CalculatorTool.call kwargs).
  split; [reflexivity |]. split.
  - rewrite call_returns. split.
    + now intros [expression ->].
    + destruct kwargs as [| [k x] [| ? ?]]; try discriminate.
      intros [= ->]. eauto.
  - intros Hne. unfold CalculatorTool.call.
    destruct kwargs as [| [k x] [| ? ?]]; try reflexivity.
    destruct (String.eqb_spec k "expression") as [-> | _];
      [now destruct Hne | reflexivity].
Qed.

(** ** The decoder *)

(** *** The fuel of the decoder is enough *)

Lemma skip_ws_length (s : string) :
  String.length (Json.skip_ws s) <= String.length s.
Proof.
  induction s as [| c s IH]; simpl; [lia |].
  destruct (Json.is_ws c); simpl; lia.
Qed.

Lemma prepend_some (chunk : string) (r : option (string * string))
    (str rest : string) :
  Json.prepend chunk r = Some (str, rest) ->
  exists str', r = Some (str', rest).
Proof.
  destruct r as [[str' rest'] |]; simpl; [| discriminate].
  intros [= _ <-]. now exists str'.
Qed.

Lemma scanstring_length (n : nat) :
  forall s str rest,
    String.length s <= n ->
    Json.scanstring s = Some (str, rest) ->
    String.length rest <= String.length s.
Proof.
  induction n as [| n IH]; intros s str rest Hn Hs.
  - destruct s; [discriminate | simpl in Hn; lia].
  - destruct s as [| c s]; [discriminate |].
    cbn [Json.scanstring] in Hs.
    repeat case_match; simplify_eq; simpl String.length in *; try lia.
    all: try (apply prepend_some in Hs as [? Hs]; apply IH in Hs;
      simpl String.length in *; lia).
Qed.

Lemma span_digits_length (s ds rest : string) :
  Json.span_digits s = (ds, rest) ->
  String.length rest <= String.length s.
Proof.
  revert ds rest. induction s as [| c s IH]; intros ds rest; simpl.
  - intros [= _ <-]. simpl. lia.
  - destruct (is_digit c).
    + destruct (Json.span_digits s) as [ds' rest'] eqn:E.
      intros [= _ <-]. specialize (IH _ _ eq_refl). lia.
    + intros [= _ <-]. simpl. lia.
Qed.

Lemma drop_prefix_length (prefix s r : string) :
  Json.drop_prefix prefix s = Some r ->
  String.length r <= String.length s.
Proof.
  revert s. induction prefix as [| p prefix IH]; intros s; simpl.
  - intros [= <-]. lia.
  - destruct s as [| c s]; [discriminate |].
    destruct (Ascii.eqb p c); [| discriminate].
    intros H. apply IH in H. simpl. lia.
Qed.

Lemma eat_length (c : ascii) (s r : string) :
  Json.eat c s = Some r -> String.length s = S (String.length r).
Proof.
  destruct s as [| c' s]; simpl; [discriminate |].
  destruct (Ascii.eqb c' c); [| discriminate]. now intros [= <-].
Qed.

Lemma scan_number_length (s : string) (v : Json.value) (rest : string) :
  Json.scan_number s = Some (v, rest) ->
  String.length rest <= String.length s.
Proof.
  unfold Json.scan_number. intros H.
  repeat case_match; simplify_eq;
    repeat match goal with
      | E : Json.span_digits _ = _ |- _ => apply span_digits_length in E
      | E : Json.eat _ _ = Some _ |- _ => apply eat_length in E
      end;
    simpl String.length in *; lia.
Qed.

Lemma scan_atom_length (s : string) (v : Json.value) (rest : string) :
  Json.scan_atom s = Some (v, rest) ->
  String.length rest <= String.length s.
Proof.
  unfold Json.scan_atom. intros H.
  repeat case_match; simplify_eq;
    repeat match goal with
      | E : Json.drop_prefix _ _ = Some _ |- _ =>
          apply drop_prefix_length in E
      | E : Json.scan_number _ = Some _ |- _ =>
          apply scan_number_length in E
      end;
    lia.
Qed.

Ltac scanned :=
  repeat
    match goal with
    | E : Json.eat _ _ = Some _ |- _ => apply eat_length in E
    | E : Json.scanstring _ = Some _ |- _ =>
        apply (scanstring_length _ _ _ _ (le_n _)) in E
    | E : Json.scan_atom _ = Some _ |- _ => apply scan_atom_length in E
    | IH : forall s v rest, Json.scan_once ?n s = Some (v, rest) -> _,
      E : Json.scan_once ?n _ = Some _ |- _ => apply IH in E
    | IH : forall s acc d rest, Json.scan_pairs ?n s acc = Some (d, rest) -> _,
      E : Json.scan_pairs ?n _ _ = Some _ |- _ => apply IH in E
    | IH : forall s l rest, Json.scan_items ?n s = Some (l, rest) -> _,
      E : Json.scan_items ?n _ = Some _ |- _ => apply IH in E
    end;
  repeat
    match goal with
    | H : context [Json.skip_ws ?t] |- _ =>
        lazymatch goal with
        | _ : String.length (Json.skip_ws t) <= String.length t |- _ => fail
        | _ => pose proof (skip_ws_length t)
        end
    end;
  simpl String.length in *.

(** What the scanner leaves is no longer than what it was given. *)
Lemma scan_length (n : nat) :
  (forall s v rest,
     Json.scan_once n s = Some (v, rest) ->
     String.length rest <= String.length s)
  /\ (forall s acc d rest,
        Json.scan_pairs n s acc = Some (d, rest) ->
        String.length rest <= String.length s)
  /\ (forall s l rest,
        Json.scan_items n s = Some (l, rest) ->
        String.length rest <= String.length s).
Proof.
  induction n as [| n (IHonce & IHpairs & IHitems)];
    [repeat split; discriminate |].
  repeat split.
  - intros s v rest H. cbn [Json.scan_once] in H.
    repeat case_match; simplify_eq; scanned; lia.
  - intros s acc d rest H. cbn [Json.scan_pairs] in H.
    repeat case_match; simplify_eq; scanned; lia.
  - intros s l rest H. cbn [Json.scan_items] in H.
    repeat case_match; simplify_eq; scanned; lia.
Qed.

Ltac replay :=
  repeat
    match goal with
    | E : ?x = _ |- context [match ?x with _ => _ end] => rewrite E
    | E : ?x = _ |- context [if ?x then _ else _] => rewrite E
    end.

Ltac rescan :=
  repeat
    (match goal with
     | IH : forall s r, Json.scan_once ?n s = Some r -> _,
       E : Json.scan_once ?n ?t = Some ?r
       |- context [Json.scan_once ?m ?t] => rewrite (IH t r E m)
     | IH : forall s acc r, Json.scan_pairs ?n s acc = Some r -> _,
       E : Json.scan_pairs ?n ?t ?acc = Some ?r
       |- context [Json.scan_pairs ?m ?t ?acc] => rewrite (IH t acc r E m)
     | IH : forall s r, Json.scan_items ?n s = Some r -> _,
       E : Json.scan_items ?n ?t = Some ?r
       |- context [Json.scan_items ?m ?t] => rewrite (IH t r E m)
     end; replay).

(** A result of the scanner is reached with two units of fuel for each
    character of the text. *)
Lemma scan_bounded (n : nat) :
  (forall s r,
     Json.scan_once n s = Some r ->
     forall m, 2 * String.length s <= m -> Json.scan_once m s = Some r)
  /\ (forall s acc r,
        Json.scan_pairs n s acc = Some r ->
        forall m, 2 * String.length s + 1 <= m ->
                  Json.scan_pairs m s acc = Some r)
  /\ (forall s r,
        Json.scan_items n s = Some r ->
        forall m, 2 * String.length s + 1 <= m ->
                  Json.scan_items m s = Some r).
Proof.
  induction n as [| n (IHonce & IHpairs & IHitems)];
    [repeat split; discriminate |].
  destruct (scan_length n) as (Lonce & Lpairs & Litems).
  repeat split.
  - intros s r H m Hm. cbn [Json.scan_once] in H.
    repeat case_match; simplify_eq;
      (destruct m as [| m]; [simpl String.length in *; lia |]);
      cbn [Json.scan_once]; replay; rescan;
      try reflexivity; try assumption;
      scanned; lia.
  - intros s acc r H m Hm. cbn [Json.scan_pairs] in H.
    repeat case_match; simplify_eq;
      (destruct m as [| m]; [simpl String.length in *; lia |]);
      cbn [Json.scan_pairs]; replay; rescan;
      try reflexivity; try assumption;
      scanned; lia.
  - intros s r H m Hm. cbn [Json.scan_items] in H.
    repeat case_match; simplify_eq;
      (destruct m as [| m]; [simpl String.length in *; lia |]);
      cbn [Json.scan_items]; replay; rescan;
      try reflexivity; try assumption;
      scanned; lia.
Qed.

(** No result of the decoder is lost by the fuel [decode] gives the
    scanner. *)
Lemma decode_fuel_suffices (n : nat) (s : string) (r : Json.value * string) :
  Json.scan_once n (Json.skip_ws s) = Some r ->
  Json.scan_once (2 * String.length s + 2) (Json.skip_ws s) = Some r.
Proof.
  intros Hs. apply (proj1 (scan_bounded n) _ _ Hs).
  pose proof (skip_ws_length s). lia.
Qed.

(** *** The JSON text of a value is read back *)

(** A character of ASCII. *)
Definition is_ascii (c : ascii) : bool := (N_of_ascii c <? 128)%N.

Fixpoint distinct (keys : list string) : bool :=
  match keys with
  | [] => true
  | k :: keys' => negb (existsb (String.eqb k) keys') && distinct keys'
  end.

(** The values built from [None], booleans, integers, ASCII strings, lists
    and dicts with ASCII keys: what the program itself writes as JSON. *)
Fixpoint plain (v : Json.value) : bool :=
  match v with
  | Json.JNull | Json.JBool _ | Json.JInt _ => true
  | Json.JFloat _ => false
  | Json.JStr s => all_chars is_ascii s
  | Json.JList items => forallb plain items
  | Json.JDict items =>
      forallb (fun kv => all_chars is_ascii (fst kv) && plain (snd kv)) items
      && distinct (List.map fst items)
  end.

(** Strings. *)

Lemma scanstring_escape_char (c : ascii) (s rest : string) :
  is_ascii c = true ->
  Json.scanstring (Json.escape_ascii (String c s) +:+ rest)
  = Json.prepend (String c EmptyString)
      (Json.scanstring (Json.escape_ascii s +:+ rest)).
Proof.
  destruct c as [[] [] [] [] [] [] [] []];
    intros Hc; try discriminate Hc; clear Hc;
    reflexivity.
Qed.

Lemma scanstring_escape (s rest : string) :
  all_chars is_ascii s = true ->
  Json.scanstring (Json.escape_ascii s +:+ quote +:+ rest) = Some (s, rest).
Proof.
  induction s as [| c s IH]; [reflexivity |].
  cbn [all_chars]. intros Hs. apply andb_prop in Hs as [Hc Hs].
  rewrite (scanstring_escape_char c s _ Hc), (IH Hs). reflexivity.
Qed.

Lemma length_append (a b : string) :
  String.length (a +:+ b) = String.length a + String.length b.
Proof. induction a as [| c a IH]; cbn; [reflexivity | now rewrite IH]. Qed.

Lemma scan_once_string (m : nat) (s rest : string) :
  all_chars is_ascii s = true ->
  Json.scan_once (S m) (Json.dumps_str s +:+ rest) = Some (Json.JStr s, rest).
Proof.
  intros Hs. unfold Json.dumps_str. rewrite !append_assoc.
  change (quote +:+ ?x) with (String Json.dquote x).
  cbn [Json.scan_once]. change (Ascii.eqb Json.dquote Json.dquote) with true.
  cbv iota. now rewrite (scanstring_escape s rest Hs).
Qed.

(** Integers. *)

(** What may follow a number in a text: not a character that would extend
    it. *)
Definition delimited (rest : string) : bool :=
  match rest with
  | EmptyString => true
  | String c _ =>
      negb (is_digit c || Ascii.eqb c "." || Ascii.eqb c "e"
            || Ascii.eqb c "E")
  end.

Lemma span_digits_append (ds rest : string) :
  all_chars is_digit ds = true ->
  delimited rest = true ->
  Json.span_digits (ds +:+ rest) = (ds, rest).
Proof.
  intros Hds Hrest. induction ds as [| c ds IH].
  - destruct rest as [| r rest]; [reflexivity |].
    cbn [String.append Json.span_digits]. cbn [delimited] in Hrest.
    apply negb_true_iff in Hrest.
    repeat (apply orb_false_iff in Hrest as [Hrest _]).
    now rewrite Hrest.
  - cbn [all_chars] in Hds. apply andb_prop in Hds as [Hc Hds].
    cbn [String.append Json.span_digits]. now rewrite Hc, (IH Hds).
Qed.

Lemma digit_is_no_sign (c : ascii) :
  is_digit c = true -> Ascii.eqb c "-" = false.
Proof.
  destruct c as [[] [] [] [] [] [] [] []]; vm_compute;
    intros Hd; try discriminate Hd; reflexivity.
Qed.

(** The number that follows the sign. *)
Lemma scan_number_unsigned (c : ascii) (ds rest : string) :
  is_digit c = true ->
  all_chars is_digit ds = true ->
  (Ascii.eqb c "0" = true -> ds = EmptyString) ->
  delimited rest = true ->
  Json.scan_number (String c ds +:+ rest)
  = Some (Json.JInt (Z.of_N (int_of_digits (String c ds))), rest)
  /\ Json.scan_number (String "-" (String c ds) +:+ rest)
     = Some (Json.JInt (- Z.of_N (int_of_digits (String c ds))), rest).
Proof.
  intros Hc Hds Hzero Hrest.
  assert (Hint :
    (if Ascii.eqb c "0" then ("0", ds +:+ rest)
     else let (ds', rest') := Json.span_digits (ds +:+ rest) in
          (String c ds', rest'))
    = (String c ds, rest)).
  { destruct (Ascii.eqb_spec c "0") as [-> | _].
    - now rewrite (Hzero eq_refl).
    - now rewrite (span_digits_append ds rest Hds Hrest). }
  assert (Htail : forall sign : string,
    (let (frac, s4) :=
       match Json.eat "." rest with
       | Some t =>
           let (ds', rest') := Json.span_digits t in
           match ds' with
           | EmptyString => (EmptyString, rest)
           | _ => ("." +:+ ds', rest')
           end
       | None => (EmptyString, rest)
       end in
     let (exp, s5) :=
       match s4 with
       | String e t =>
           if Ascii.eqb e "e" || Ascii.eqb e "E" then
             let (esign, t') :=
               match Json.eat "+" t, Json.eat "-" t with
               | Some u, _ => ("+", u)
               | None, Some u => ("-", u)
               | None, None => (EmptyString, t)
               end in
             let (ds', rest') := Json.span_digits t' in
             match ds' with
             | EmptyString => (EmptyString, s4)
             | _ => (String e esign +:+ ds', rest')
             end
           else (EmptyString, s4)
       | EmptyString => (EmptyString, s4)
       end in
     match frac, exp with
     | EmptyString, EmptyString =>
         let n := Z.of_N (int_of_digits (String c ds)) in
         Some (Json.JInt (if String.eqb sign "-" then - n else n)%Z, s5)
     | _, _ =>
         Some (Json.JFloat (sign +:+ String c ds +:+ frac +:+ exp), s5)
     end)
    = Some (Json.JInt
              (if String.eqb sign "-"
               then - Z.of_N (int_of_digits (String c ds))
               else Z.of_N (int_of_digits (String c ds)))%Z, rest)).
  { intros sign. destruct rest as [| r rest']; [reflexivity |].
    cbn [delimited] in Hrest. apply negb_true_iff in Hrest.
    apply orb_false_iff in Hrest as [Hrest HE].
    apply orb_false_iff in Hrest as [Hrest He].
    apply orb_false_iff in Hrest as [_ Hdot].
    cbn [Json.eat]. rewrite Hdot, He, HE. reflexivity. }
  split.
  - unfold Json.scan_number. cbn [String.append Json.eat].
    rewrite (digit_is_no_sign c Hc), Hc, Hint.
    apply (Htail EmptyString).
  - unfold Json.scan_number. cbn [String.append Json.eat].
    change (Ascii.eqb "-" "-") with true. cbv iota.
    rewrite Hc, Hint. apply (Htail "-").
Qed.

(** The digits of a positive number: the first is not zero. *)
Lemma positive_digits (p : positive) :
  exists c ds,
    NilEmpty.string_of_uint (Pos.to_uint p) = String c ds
    /\ is_digit c = true /\ all_chars is_digit ds = true
    /\ Ascii.eqb c "0" = false
    /\ int_of_digits (String c ds) = Npos p.
Proof.
  pose proof (string_of_uint_digits (Pos.to_uint p)) as Hd.
  pose proof (int_of_digits_decimal (Npos p)) as Hv.
  change (N.to_uint (Npos p)) with (Pos.to_uint p) in Hv.
  destruct (to_uint_canonical (Npos p)) as [Hz | [Hnil Hnz]];
    change (N.to_uint (Npos p)) with (Pos.to_uint p) in *.
  - rewrite Hz in Hv. discriminate Hv.
  - destruct (Pos.to_uint p) as [| d | d | d | d | d | d | d | d | d | d];
      [now destruct Hnil | now destruct (Hnz d) | ..];
      cbn [NilEmpty.string_of_uint] in *;
      cbn [all_chars] in Hd; apply andb_prop in Hd as [Hc Hds];
      eexists _, _; repeat split; eauto.
Qed.

Lemma str_int_pos (p : positive) :
  str_int (Zpos p) = NilEmpty.string_of_uint (Pos.to_uint p).
Proof.
  unfold str_int. cbn.
  apply string_of_uint_nonnil, pos_to_uint_nonnil.
Qed.

Lemma str_int_neg (p : positive) :
  str_int (Zneg p) = String "-" (NilEmpty.string_of_uint (Pos.to_uint p)).
Proof.
  unfold str_int. cbn. f_equal.
  apply string_of_uint_nonnil, pos_to_uint_nonnil.
Qed.

Lemma scan_number_int (z : Z) (rest : string) :
  delimited rest = true ->
  Json.scan_number (str_int z +:+ rest) = Some (Json.JInt z, rest).
Proof.
  intros Hrest. destruct z as [| p | p].
  - apply (scan_number_unsigned "0" EmptyString rest); auto.
  - rewrite str_int_pos.
    destruct (positive_digits p) as (c & ds & -> & Hc & Hds & Hz & Hv).
    change (Json.JInt (Zpos p)) with (Json.JInt (Z.of_N (Npos p))).
    rewrite <- Hv.
    apply (scan_number_unsigned c ds rest); auto. congruence.
  - rewrite str_int_neg.
    destruct (positive_digits p) as (c & ds & -> & Hc & Hds & Hz & Hv).
    change (Json.JInt (Zneg p)) with (Json.JInt (- Z.of_N (Npos p))).
    rewrite <- Hv.
    apply (scan_number_unsigned c ds rest); auto. congruence.
Qed.

(** The first character of a numeral starts no other value. *)
Lemma numeral_head (c : ascii) :
  is_digit c = true \/ c = "-"%char ->
  Ascii.eqb c Json.dquote = false /\ Ascii.eqb c "{" = false
  /\ Ascii.eqb c "[" = false /\ Ascii.eqb "n" c = false
  /\ Ascii.eqb "t" c = false /\ Ascii.eqb "f" c = false
  /\ Json.is_ws c = false /\ Ascii.eqb c "]" = false.
Proof.
  intros [Hd | ->]; [| repeat split].
  destruct c as [[] [] [] [] [] [] [] []];
    try discriminate Hd; repeat split.
Qed.

Lemma str_int_head (z : Z) :
  exists c s,
    str_int z = String c s /\ (is_digit c = true \/ c = "-"%char).
Proof.
  destruct z as [| p | p].
  - exists "0"%char, EmptyString. split; [reflexivity | now left].
  - rewrite str_int_pos.
    destruct (positive_digits p) as (c & ds & -> & Hc & _). eauto.
  - rewrite str_int_neg. eauto.
Qed.

Lemma scan_once_int (m : nat) (z : Z) (rest : string) :
  delimited rest = true ->
  Json.scan_once (S m) (str_int z +:+ rest) = Some (Json.JInt z, rest).
Proof.
  intros Hrest. pose proof (scan_number_int z rest Hrest) as Hn.
  destruct (str_int_head z) as (c & s & Hs & Hc).
  rewrite Hs in *. cbn [String.append] in *.
  destruct (numeral_head c Hc) as (Hq & Hb & Hk & Hnull & Ht & Hf & _).
  cbn [Json.scan_once]. rewrite Hq, Hb, Hk.
  unfold Json.scan_atom. cbn [Json.drop_prefix].
  now rewrite Hnull, Ht, Hf, Hn.
Qed.

(** Values. *)

Lemma value_nested_ind (P : Json.value -> Prop) :
  P Json.JNull ->
  (forall b, P (Json.JBool b)) ->
  (forall z, P (Json.JInt z)) ->
  (forall lexeme, P (Json.JFloat lexeme)) ->
  (forall s, P (Json.JStr s)) ->
  (forall items, Forall P items -> P (Json.JList items)) ->
  (forall items, Forall (fun kv => P (snd kv)) items -> P (Json.JDict items)) ->
  forall v, P v.
Proof.
  intros Hnull Hbool Hint Hfloat Hstr Hlist Hdict.
  fix IH 1. intros [| b | z | lexeme | s | items | items].
  - exact Hnull.
  - apply Hbool.
  - apply Hint.
  - apply Hfloat.
  - apply Hstr.
  - apply Hlist.
    induction items as [| x items IHitems]; constructor;
      [apply IH | exact IHitems].
  - apply Hdict.
    induction items as [| [k x] items IHitems]; constructor;
      [apply IH | exact IHitems].
Qed.

Lemma skip_ws_head (h : ascii) (t : string) :
  Json.is_ws h = false -> Json.skip_ws (String h t) = String h t.
Proof. intros Hh. cbn [Json.skip_ws]. now rewrite Hh. Qed.

(** The text of a value starts with a character that is not white space
    and does not close a list. *)
Lemma dumps_head (v : Json.value) :
  plain v = true ->
  exists h t,
    Json.dumps v = String h t
    /\ Json.is_ws h = false /\ Ascii.eqb h "]" = false.
Proof.
  destruct v as [| [|] | z | lexeme | s | items | items]; intros Hv;
    try discriminate Hv;
    try (eexists _, _; split; [reflexivity | split; reflexivity]).
  cbn [Json.dumps].
  destruct (str_int_head z) as (c & s & -> & Hc).
  destruct (numeral_head c Hc) as (_ & _ & _ & _ & _ & _ & Hw & Hk).
  eauto.
Qed.

Lemma set_fresh (key : string) (v : Json.value) (acc : Json.dict) :
  existsb (String.eqb key) (List.map fst acc) = false ->
  Json.set key v acc = acc ++ [(key, v)].
Proof.
  induction acc as [| [k w] acc IH]; cbn [Json.set List.map existsb fst app];
    [reflexivity |].
  intros Hk. apply orb_false_iff in Hk as [Hk Hacc].
  rewrite String.eqb_sym, Hk. now rewrite (IH Hacc).
Qed.

(** A value is read back from its text, whatever follows it that does not
    extend a number. *)
Definition read_back (v : Json.value) : Prop :=
  plain v = true ->
  forall rest m,
    delimited rest = true ->
    2 * String.length (Json.dumps v +:+ rest) <= m ->
    Json.scan_once m (Json.dumps v +:+ rest) = Some (v, rest).

Lemma scan_items_dumps (items : list Json.value) :
  Forall read_back items ->
  forallb plain items = true ->
  items <> [] ->
  forall rest m,
    2 * String.length
          (Json.join ", " (List.map Json.dumps items) +:+ "]" +:+ rest) + 1
    <= m ->
    Json.scan_items m
      (Json.join ", " (List.map Json.dumps items) +:+ "]" +:+ rest)
    = Some (items, rest).
Proof.
  induction items as [| x items IH]; [congruence |].
  intros Hread Hplain _ rest m Hm.
  apply Forall_cons_iff in Hread as [Hx Hread].
  cbn [forallb] in Hplain. apply andb_prop in Hplain as [Hpx Hplain].
  destruct m as [| m]; [lia |]. cbn [Json.scan_items].
  destruct items as [| y items].
  - cbn [List.map Json.join] in *.
    rewrite (Hx Hpx ("]" +:+ rest) m) by (reflexivity || lia).
    reflexivity.
  - change (Json.join ", " (List.map Json.dumps (x :: y :: items)))
      with (Json.dumps x +:+ ", "
            +:+ Json.join ", " (List.map Json.dumps (y :: items))) in *.
    rewrite !append_assoc in *.
    set (tail := Json.join ", " (List.map Json.dumps (y :: items))
                 +:+ "]" +:+ rest) in *.
    rewrite !length_append in Hm. cbn [String.length] in Hm.
    rewrite (Hx Hpx (", " +:+ tail) m)
      by (reflexivity || (rewrite !length_append; cbn [String.length]; lia)).
    cbn [String.append Json.skip_ws].
    change (Json.is_ws ",") with false. cbv iota.
    unfold Json.eat.
    change (Ascii.eqb "," "]") with false.
    change (Ascii.eqb "," ",") with true. cbv iota.
    cbn [Json.skip_ws]. change (Json.is_ws " ") with true. cbv iota.
    fold Json.skip_ws.
    assert (Hskip : Json.skip_ws tail = tail).
    { subst tail. cbn [List.map Json.join].
      cbn [forallb] in Hplain. apply andb_prop in Hplain as [Hpy _].
      destruct (dumps_head y Hpy) as (h & t & -> & Hw & _).
      destruct items; cbn [String.append]; now apply skip_ws_head. }
    rewrite Hskip. subst tail.
    rewrite (IH Hread Hplain ltac:(discriminate) rest m) by lia.
    reflexivity.
Qed.

(** The text of one item of a dict. *)
Definition pair_text (kv : string * Json.value) : string :=
  Json.dumps_str (fst kv) +:+ ": " +:+ Json.dumps (snd kv).

Lemma scan_pairs_step (m : nat) (k : string) (x : Json.value)
    (acc : Json.dict) (tail : string) :
  all_chars is_ascii k = true ->
  plain x = true ->
  read_back x ->
  delimited tail = true ->
  2 * String.length (Json.dumps x +:+ tail) <= m ->
  Json.scan_pairs (S m) (pair_text (k, x) +:+ tail) acc
  = match Json.eat "}" (Json.skip_ws tail),
          Json.eat "," (Json.skip_ws tail) with
    | Some rest, _ => Some (Json.set k x acc, rest)
    | None, Some s5 => Json.scan_pairs m (Json.skip_ws s5) (Json.set k x acc)
    | None, None => None
    end.
Proof.
  intros Hk Hpx Hx Htail Hm.
  unfold pair_text, Json.dumps_str. cbn [fst snd]. rewrite !append_assoc.
  change (quote +:+ ?s) with (String Json.dquote s).
  cbn [Json.scan_pairs].
  change (Ascii.eqb Json.dquote Json.dquote) with true. cbn [negb].
  rewrite (scanstring_escape k _ Hk).
  cbn [String.append Json.skip_ws].
  change (Json.is_ws ":") with false. cbv iota.
  unfold Json.eat at 1. change (Ascii.eqb ":" ":") with true. cbv iota.
  cbn [Json.skip_ws]. change (Json.is_ws " ") with true. cbv iota.
  fold Json.skip_ws.
  assert (Hskip : Json.skip_ws (Json.dumps x +:+ tail)
                  = Json.dumps x +:+ tail).
  { destruct (dumps_head x Hpx) as (h & t & -> & Hw & _).
    now apply skip_ws_head. }
  rewrite Hskip, (Hx Hpx tail m Htail Hm). reflexivity.
Qed.

Lemma distinct_middle (l1 l2 : list string) (k : string) :
  distinct (l1 ++ k :: l2) = true -> existsb (String.eqb k) l1 = false.
Proof.
  induction l1 as [| a l1 IH]; [reflexivity |].
  cbn [app distinct existsb]. intros Hd.
  apply andb_prop in Hd as [Ha Hd]. rewrite (IH Hd), orb_false_r.
  apply negb_true_iff in Ha. rewrite existsb_app in Ha.
  apply orb_false_iff in Ha as [_ Ha]. cbn [existsb] in Ha.
  apply orb_false_iff in Ha as [Ha _]. now rewrite String.eqb_sym.
Qed.

Lemma pairs_head (kv : string * Json.value) (items : Json.dict)
    (rest : string) :
  exists t,
    Json.join ", " (List.map pair_text (kv :: items)) +:+ rest
    = String Json.dquote t.
Proof.
  destruct items; cbn [List.map Json.join]; unfold pair_text, Json.dumps_str;
    rewrite !append_assoc; eexists; reflexivity.
Qed.

Lemma scan_pairs_dumps (items : Json.dict) :
  Forall (fun kv => read_back (snd kv)) items ->
  forallb (fun kv => all_chars is_ascii (fst kv) && plain (snd kv)) items
  = true ->
  items <> [] ->
  forall acc rest m,
    distinct (List.map fst (acc ++ items)) = true ->
    2 * String.length
          (Json.join ", " (List.map pair_text items) +:+ "}" +:+ rest) + 1
    <= m ->
    Json.scan_pairs m
      (Json.join ", " (List.map pair_text items) +:+ "}" +:+ rest) acc
    = Some (acc ++ items, rest).
Proof.
  induction items as [| [k x] items IH]; [congruence |].
  intros Hread Hplain _ acc rest m Hkeys Hm.
  apply Forall_cons_iff in Hread as [Hx Hread]. cbn [snd] in Hx.
  cbn [forallb fst snd] in Hplain.
  apply andb_prop in Hplain as [Hkx Hplain].
  apply andb_prop in Hkx as [Hk Hpx].
  assert (Hfresh : Json.set k x acc = acc ++ [(k, x)]).
  { apply set_fresh. rewrite List.map_app in Hkeys.
    now apply distinct_middle in Hkeys. }
  destruct m as [| m]; [lia |].
  destruct items as [| kv items].
  - cbn [List.map Json.join] in *.
    unfold pair_text in Hm. cbn [fst snd] in Hm.
    rewrite !append_assoc, !length_append in Hm.
    rewrite scan_pairs_step
      by (assumption || reflexivity
          || (rewrite !length_append; cbn [String.length] in *; lia)).
    rewrite Hfresh. reflexivity.
  - change (Json.join ", " (List.map pair_text ((k, x) :: kv :: items)))
      with (pair_text (k, x) +:+ ", "
            +:+ Json.join ", " (List.map pair_text (kv :: items))) in *.
    rewrite !append_assoc in *.
    set (tail := Json.join ", " (List.map pair_text (kv :: items))
                 +:+ "}" +:+ rest) in *.
    unfold pair_text in Hm. cbn [fst snd] in Hm.
    rewrite !append_assoc, !length_append in Hm.
    cbn [String.length] in Hm.
    rewrite scan_pairs_step
      by (assumption || reflexivity
          || (rewrite !length_append; cbn [String.length] in *; lia)).
    cbn [String.append Json.skip_ws].
    change (Json.is_ws ",") with false. cbv iota.
    unfold Json.eat.
    change (Ascii.eqb "," "}") with false.
    change (Ascii.eqb "," ",") with true. cbv iota.
    cbn [Json.skip_ws]. change (Json.is_ws " ") with true. cbv iota.
    fold Json.skip_ws.
    assert (Hskip : Json.skip_ws tail = tail).
    { subst tail. destruct (pairs_head kv items ("}" +:+ rest)) as [t ->].
      reflexivity. }
    rewrite Hskip, Hfresh. subst tail.
    rewrite (IH Hread Hplain ltac:(discriminate) (acc ++ [(k, x)]) rest m).
    + now rewrite <- app_assoc.
    + now rewrite <- app_assoc.
    + lia.
Qed.

Lemma read_back_all (v : Json.value) : read_back v.
Proof.
  induction v as [| b | z | lexeme | s | items IH | items IH]
    using value_nested_ind;
    intros Hv rest m Hrest Hm;
    rewrite length_append in Hm;
    try discriminate Hv.
  - destruct m as [| m]; [cbn in Hm; lia | reflexivity].
  - destruct m as [| m]; [destruct b; cbn in Hm; lia |].
    destruct b; reflexivity.
  - destruct m as [| m].
    + destruct (str_int_head z) as (c & s & Hs & _).
      cbn [Json.dumps] in Hm. rewrite Hs in Hm. cbn in Hm. lia.
    + now apply scan_once_int.
  - destruct m as [| m]; [cbn in Hm; lia |].
    now apply scan_once_string.
  - cbn [Json.dumps plain] in *. rewrite !append_assoc in *.
    destruct m as [| m]; [cbn in Hm; lia |].
    cbn [String.append Json.scan_once].
    change (Ascii.eqb "[" Json.dquote) with false.
    change (Ascii.eqb "[" "{") with false.
    change (Ascii.eqb "[" "[") with true. cbv iota.
    destruct items as [| x items]; [reflexivity |].
    assert (Hskip : forall tail,
      Json.skip_ws (Json.join ", " (List.map Json.dumps (x :: items)) +:+ tail)
      = Json.join ", " (List.map Json.dumps (x :: items)) +:+ tail
      /\ Json.eat "]"
           (Json.join ", " (List.map Json.dumps (x :: items)) +:+ tail)
         = None).
    { intros tail. cbn [forallb] in Hv. apply andb_prop in Hv as [Hpx _].
      destruct (dumps_head x Hpx) as (h & t & Hd & Hw & Hk).
      destruct items; cbn [List.map Json.join]; rewrite Hd;
        cbn [String.append];
        (split; [now apply skip_ws_head
                | unfold Json.eat; cbv beta iota; now rewrite Hk]). }
    destruct (Hskip (String "]" rest)) as [-> ->].
    change (String "]" rest) with ("]" +:+ rest) in *.
    rewrite (scan_items_dumps (x :: items) IH Hv ltac:(discriminate) rest m);
      [reflexivity |].
    rewrite !length_append in *. cbn [String.length] in *. lia.
  - cbn [Json.dumps plain] in *.
    change (List.map
              (fun kv0 : string * Json.value =>
                 Json.dumps_str (fst kv0) +:+ ": " +:+ Json.dumps (snd kv0)))
      with (List.map pair_text) in *.
    rewrite !append_assoc in *.
    apply andb_prop in Hv as [Hv Hkeys].
    destruct m as [| m]; [cbn in Hm; lia |].
    cbn [String.append Json.scan_once].
    change (Ascii.eqb "{" Json.dquote) with false.
    change (Ascii.eqb "{" "{") with true. cbv iota.
    destruct items as [| kv items]; [reflexivity |].
    change (String "}" rest) with ("}" +:+ rest) in *.
    destruct (pairs_head kv items ("}" +:+ rest)) as [t Ht].
    rewrite Ht. cbn [Json.skip_ws]. unfold Json.eat. cbv beta iota.
    change (Json.is_ws Json.dquote) with false.
    change (Ascii.eqb Json.dquote "}") with false. cbv iota.
    rewrite <- Ht.
    rewrite (scan_pairs_dumps (kv :: items) IH Hv ltac:(discriminate) [] rest m);
      [reflexivity | exact Hkeys |].
    rewrite !length_append in *. cbn [String.length] in *. lia.
Qed.

Lemma decode_dumps (v : Json.value) :
  plain v = true -> Json.decode (Json.dumps v) = Some v.
Proof.
  intros Hv. unfold Json.decode.
  destruct (dumps_head v Hv) as (h & t & Hd & Hw & _).
  assert (Hskip : Json.skip_ws (Json.dumps v) = Json.dumps v)
    by (rewrite Hd; now apply skip_ws_head).
  rewrite Hskip. rewrite <- (append_nil_r (Json.dumps v)) at 2.
  rewrite (read_back_all v Hv EmptyString); [reflexivity | reflexivity |].
  rewrite append_nil_r. lia.
Qed.

(** X21. [json.loads] reads back what [json.dumps] writes: for a value
    built from [None], booleans, integers, ASCII strings, lists and dicts
    with ASCII keys, decoding its text gives the value.  The decision of the
    scripted model and the schema of the calculator are such values. *)
Theorem loads_reads_dumps (v : Json.value) :
  plain v = true -> Json.decode (Json.dumps v) = Some v.
Proof. apply decode_dumps. Qed.

Lemma loads_reads_dumps_witness :
  Json.decode (Json.dumps MockLLMProvider.decision)
  = Some MockLLMProvider.decision
  /\ Json.decode (Json.dumps CalculatorTool.get_schema)
     = Some CalculatorTool.get_schema.
Proof.
  split.
  - apply (loads_reads_dumps MockLLMProvider.decision). reflexivity.
  - apply (loads_reads_dumps CalculatorTool.get_schema). reflexivity.
Defined.

(** X22. [to_dict] keeps the role and the content of a message and drops
    its metadata; when both are ASCII text, the JSON text of the dict decodes
    to the dict of these two items. *)
Theorem to_dict_round_trip (message : Message.t) :
  all_chars is_ascii (Message.role message) = true ->
  all_chars is_ascii (Message.content message) = true ->
  Json.decode (Json.dumps (Message.to_dict message))
  = Some (Json.JDict [("role", Json.JStr (Message.role message));
                      ("content", Json.JStr (Message.content message))]).
Proof.
  intros Hr Hc. apply decode_dumps.
  unfold Message.to_dict. cbn [plain forallb fst snd List.map].
  rewrite Hr, Hc. reflexivity.
Qed.

Lemma to_dict_round_trip_witness :
  Json.decode
    (Json.dumps
       (Message.to_dict
          (Message.new "tool" "100" {["tool" := Json.JStr "calculator"]})))
  = Some (Json.JDict [("role", Json.JStr "tool");
                      ("content", Json.JStr "100")]).
Proof.
  apply (to_dict_round_trip
           (Message.new "tool" "100" {["tool" := Json.JStr "calculator"]}));
    reflexivity.
Defined.



(** *** From the decision of a model to the answer *)








